(** * overlap.py: SUV/ACT scale factors, min-max normalisation, mask union and
    batch assembly, as a shallow embedding.

    Numbers are modelled by the real numbers of the Standard Library: a Python
    [float] / [np.float64] is an element of [R], and [np.exp], [np.log] are
    [exp] and [ln].  Rounding, overflow to [inf] and [nan] are outside this
    model; the places where numpy would yield [inf] or [nan] (a division by a
    zero [np.float64]) are pointed out at the definitions concerned.

    The services of SimpleITK, pydicom and scikit-image (the series reader,
    [os.listdir], [dcmread], [sitk.Resample], [io.imread]) are the fields of
    a record [services] that the pipeline takes as a parameter; the calls
    made are kept in a log.  Python exceptions are values of the type [exn].
    Where a statement depends on the rounding or the overflow of the
    floats, [norm] and the mask sum are given a second time with IEEE
    binary64 arithmetic ([norm_f64], [get_tiff_masks_f64]).
    [warnings.warn] only reports and is left out.  The class [PET] repeats
    [from_dicom_pet] and [calc_factor] word for word as methods; they are
    modelled once. *)

From Stdlib Require Import PrimFloat Reals Lra Lia ZArith String List Bool Permutation.
Import ListNotations.

Open Scope R_scope.

(** ** Exceptions and fallible computations *)

Inductive exn : Type :=
| AttributeError      (* attribute absent from the data set *)
| ValueError          (* float() or strptime() on a malformed value *)
| IndexError          (* [0] on an empty sequence *)
| KeyError            (* missing dictionary key *)
| ZeroDivisionError   (* Python float division by zero *)
| OSError.            (* a file or directory that cannot be read *)

Inductive result (A : Type) : Type :=
| Ok (a : A)
| Raise (e : exn).
Arguments Ok {A} a.
Arguments Raise {A} e.

Definition rbind {A B} (c : result A) (k : A -> result B) : result B :=
  match c with
  | Ok a => k a
  | Raise e => Raise e
  end.

Declare Scope result_scope.
Delimit Scope result_scope with result.
Notation "x <- c ;; k" := (rbind c (fun x => k))
  (at level 61, c at next level, right associativity) : result_scope.

(** ** DICOM headers *)

(** An attribute of a data set as the code sees it after the library call
    that reads it: absent ([AttributeError] on access), present with a value
    the conversion rejects ([ValueError] from [float] or [strptime]), or
    present and converted. *)
Inductive field (A : Type) : Type :=
| Missing
| Malformed
| Present (a : A).
Arguments Missing {A}.
Arguments Malformed {A}.
Arguments Present {A} a.

Definition get {A} (f : field A) : result A :=
  match f with
  | Missing => Raise AttributeError
  | Malformed => Raise ValueError
  | Present a => Ok a
  end.

(** The value of [datetime.datetime.strptime(s, '%H%M%S.%f')]: a time of day
    on the fixed date 1900-01-01. *)
Record time : Type := mkTime {
  hour : Z;          (* 0..23 *)
  minute : Z;        (* 0..59 *)
  second : Z;        (* 0..59 *)
  microsecond : Z    (* 0..999999 *)
}.

Definition time_wf (t : time) : Prop :=
  (0 <= hour t < 24 /\ 0 <= minute t < 60 /\ 0 <= second t < 60
   /\ 0 <= microsecond t < 1000000)%Z.

Definition seconds_of_day (t : time) : Z :=
  (hour t * 3600 + minute t * 60 + second t)%Z.

Definition micros_of_day (t : time) : Z :=
  (seconds_of_day t * 1000000 + microsecond t)%Z.

(** [(t1 - t2).seconds]: a [timedelta] is normalised to days, seconds in
    [0, 86400) and microseconds in [0, 10^6); [.seconds] is the middle
    component, not the total number of seconds. *)
Definition timedelta_seconds (t1 t2 : time) : Z :=
  (((micros_of_day t1 - micros_of_day t2) / 1000000) mod 86400)%Z.

Record radiopharm_item : Type := mkItem {
  RadiopharmaceuticalStartTime : field time;
  RadionuclideHalfLife : field R;
  RadionuclideTotalDose : field R
}.

(** One element of [df.to_json_dict()]: a JSON object that may have a
    ["Value"] list. *)
Record json_element : Type := mkElem {
  Value : option (list R)
}.

Record dataset : Type := mkDataset {
  PatientWeight : field R;
  AcquisitionTime : field time;
  RadiopharmaceuticalInformationSequence : option (list radiopharm_item);
  to_json_dict : list (string * json_element)
}.

(** [seq[0]] on an attribute holding a sequence. *)
Definition first_item (s : option (list radiopharm_item)) : result radiopharm_item :=
  match s with
  | None => Raise AttributeError
  | Some [] => Raise IndexError
  | Some (it :: _) => Ok it
  end.

(** Python's [int / float]: raises on a zero divisor. *)
Definition py_div (n : Z) (d : R) : result R :=
  if Req_dec_T d 0 then Raise ZeroDivisionError else Ok (IZR n / d).

(** ** calc_factor *)

(** The first [try]: the weight in grams, 75 kg when the attribute cannot
    be read. *)
Definition weight_g (df : dataset) : R :=
  match get (PatientWeight df) with
  | Ok w => w * 1000
  | Raise _ => 75000
  end.

(** The body of the second [try]: the pair [(a, injected_dose_decay)].
    [exp] is the real exponential: [np.exp] overflows to [inf] for a small
    negative half-life and underflows to 0 for a short positive one,
    without an exception in either case. *)
Definition decay_try (df : dataset) : result (R * R) :=
  (scan_time <- get (AcquisitionTime df) ;;
   item <- first_item (RadiopharmaceuticalInformationSequence df) ;;
   injection_time <- get (RadiopharmaceuticalStartTime item) ;;
   item' <- first_item (RadiopharmaceuticalInformationSequence df) ;;
   half_life <- get (RadionuclideHalfLife item') ;;
   item'' <- first_item (RadiopharmaceuticalInformationSequence df) ;;
   injected_dose <- get (RadionuclideTotalDose item'') ;;
   q <- py_div (timedelta_seconds scan_time injection_time) half_life ;;
   let a := exp (- ln 2 * q) in
   Ok (a, a * injected_dose))%result.

(** The [except:] branch: 90 min waiting time, 15 min preparation, 420 MBq. *)
Definition fallback_a : R := exp (- ln 2 * (1.75 * 3600) / 6588).
Definition fallback_decay : R * R := (fallback_a, 420000000 * fallback_a).

(** The second [try ... except:] as a whole; the bare [except:] takes every
    exception. *)
Definition decay_block (df : dataset) : R * R :=
  match decay_try df with
  | Ok p => p
  | Raise _ => fallback_decay
  end.

(** [weight / injected_dose_decay] is a division by an [np.float64]: for a
    zero divisor numpy yields [inf] or [nan] and no exception; the model has
    the value of [/] at 0 there. *)
Definition calc_factor (df : dataset) (type : string) : R :=
  let weight := weight_g df in
  let '(a, injected_dose_decay) := decay_block df in
  let suv := weight / injected_dose_decay in
  if String.eqb type "SUV" then suv else 1 / a.

(** ** Arrays *)

(** A 3-D [ndarray] in numpy index order [z, y, x], as nested lists; an
    [ndarray] is rectangular, which [rect3] states. *)
Definition vol (A : Type) : Type := list (list (list A)).

Definition shape3 {A} (v : vol A) : nat * nat * nat :=
  (length v, length (hd [] v), length (hd [] (hd [] v))).

Definition rect3 {A} (sh : nat * nat * nat) (v : vol A) : Prop :=
  let '(z, y, x) := sh in
  length v = z /\
  Forall (fun plane => length plane = y /\ Forall (fun row => length row = x) plane) v.

Arguments rect3 : simpl never.

Definition ravel {A} (v : vol A) : list A := concat (concat v).

Definition vmap {A B} (f : A -> B) (v : vol A) : vol B := map (map (map f)) v.

Fixpoint map2 {A B C} (f : A -> B -> C) (l1 : list A) (l2 : list B) : list C :=
  match l1, l2 with
  | a :: l1', b :: l2' => f a b :: map2 f l1' l2'
  | _, _ => []
  end.

Definition vmap2 {A B C} (f : A -> B -> C) (v : vol A) (w : vol B) : vol C :=
  map2 (map2 (map2 f)) v w.

Definition zeros (sh : nat * nat * nat) : vol R :=
  let '(z, y, x) := sh in repeat (repeat (repeat 0 x) y) z.

(** [np.flip(v, 0)] *)
Definition flip0 {A} (v : vol A) : vol A := rev v.

Definition shape_eqb (s t : nat * nat * nat) : bool :=
  let '(z, y, x) := s in
  let '(z', y', x') := t in
  Nat.eqb z z' && Nat.eqb y y' && Nat.eqb x x'.

(** [np.min] and [np.max] over all elements; both raise on an empty array. *)
Definition np_min (l : list R) : result R :=
  match l with
  | [] => Raise ValueError
  | x :: xs => Ok (fold_left Rmin xs x)
  end.

Definition np_max (l : list R) : result R :=
  match l with
  | [] => Raise ValueError
  | x :: xs => Ok (fold_left Rmax xs x)
  end.

(** [norm]: for a constant array the divisor is zero, where numpy yields
    [nan] and the model the value of [/] at 0.  The arithmetic is that of
    the real numbers: an integer [dtype], where [x - np.min(x)] wraps, and
    a range [np.max(x) - np.min(x)] that overflows are not covered here;
    [norm_f64] below has the binary64 arithmetic. *)
Definition norm (x : vol R) : result (vol R) :=
  (lo <- np_min (ravel x) ;;
   hi <- np_max (ravel x) ;;
   lo' <- np_min (ravel x) ;;
   Ok (vmap (fun v => (v - lo) / (hi - lo')) x))%result.

(** Broadcasting one axis to length [n]: an axis of that length is kept, an
    axis of length 1 is repeated, anything else cannot be broadcast. *)
Definition bcast {A} (n : nat) (l : list A) : result (list A) :=
  if Nat.eqb (length l) n then Ok l
  else match l with
       | [a] => Ok (repeat a n)
       | _ => Raise ValueError
       end.

Fixpoint mapM {A B} (f : A -> result B) (l : list A) : result (list B) :=
  match l with
  | [] => Ok []
  | a :: l' => (b <- f a ;; bs <- mapM f l' ;; Ok (b :: bs))%result
  end.

(** The operand of an in-place [+=] is broadcast to the shape of the target. *)
Definition broadcast_to {A} (sh : nat * nat * nat) (img : vol A) : result (vol A) :=
  let '(z, y, x) := sh in
  (planes <- mapM (fun plane => rows <- mapM (bcast x) plane ;; bcast y rows) img ;;
   bcast z planes)%result.

(** [mask += img] for a [mask] of shape [sh].  The sum is that of the real
    numbers, which is the [float64] sum as long as the samples are
    integers; [get_tiff_masks_f64] below has the binary64 sum. *)
Definition iadd (sh : nat * nat * nat) (mask img : vol R) : result (vol R) :=
  (b <- broadcast_to sh img ;; Ok (vmap2 Rplus mask b))%result.

(** [np.where(mask > epsilon, 1, 0)] *)
Definition threshold (epsilon : R) (mask : vol R) : vol Z :=
  vmap (fun v => if Rlt_dec epsilon v then 1%Z else 0%Z) mask.

(** A 4-D array, and [np.array([A, B, C])] of three volumes: the shapes
    must agree. *)
Definition arr4 (A : Type) : Type := list (vol A).

Definition np_array3 (a b c : vol R) : result (arr4 R) :=
  if shape_eqb (shape3 a) (shape3 b) && shape_eqb (shape3 a) (shape3 c)
  then Ok [a; b; c]
  else Raise ValueError.

(** [np.moveaxis(a, 0, 1)]: the two leading axes change places. *)
Definition moveaxis01 {A} (a : list (list A)) : list (list A) :=
  fold_right (map2 cons) (repeat [] (length (hd [] a))) a.

(** The shape of a 4-D array. *)
Definition shape4 {A} (a : arr4 A) : list nat :=
  let '(n1, n2, n3) := shape3 (hd [] a) in [length a; n1; n2; n3].

(** [np.concatenate([a, b], 0)]: all axes but the first must agree. *)
Definition concatenate0 (a b : arr4 R) : result (arr4 R) :=
  if shape_eqb (shape3 (hd [] a)) (shape3 (hd [] b)) then Ok (a ++ b)
  else Raise ValueError.

(** ** External services, events and the I/O monad *)

Record geometry : Type := mkGeometry {
  spacing : R * R * R;
  origin : R * R * R;
  direction : list R
}.

(** A [sitk.Image]: a grid and the voxels, as [sitk.GetArrayFromImage]
    returns them. *)
Record image : Type := mkImage {
  grid : geometry;
  pixels : vol R
}.

Definition GetArrayFromImage (img : image) : vol R := pixels img.

(** What the libraries do; the pipeline is a function of them. *)
Record services : Type := mkServices {
  read_series : string -> string -> result image;   (* GDCM series reader: directory, series id *)
  os_listdir : string -> result (list string);
  posix_join : string -> string -> string;          (* pathlib.Path(a, b).as_posix() *)
  dcmread : string -> result dataset;
  sitk_Resample : image -> image -> image;          (* image, reference image *)
  io_imread : string -> result (vol R)
}.

Inductive event : Type :=
| EvReadSeries (path series_id : string)
| EvListdir (path : string)
| EvDcmread (path : string)
| EvResample (moving reference : image)
| EvImread (path : string).

(** A computation that calls the services: it extends the log of calls, or
    raises. *)
Definition M (A : Type) : Type := list event -> result (A * list event).

Definition ret {A} (a : A) : M A := fun log => Ok (a, log).

Definition bind {A B} (c : M A) (k : A -> M B) : M B :=
  fun log =>
    match c log with
    | Ok (a, log') => k a log'
    | Raise e => Raise e
    end.

Definition lift {A} (r : result A) : M A :=
  fun log =>
    match r with
    | Ok a => Ok (a, log)
    | Raise e => Raise e
    end.

Definition emit (e : event) : M unit := fun log => Ok (tt, log ++ [e]).

Declare Scope io_scope.
Delimit Scope io_scope with io.
Notation "x <- c ;; k" := (bind c (fun x => k))
  (at level 61, c at next level, right associativity) : io_scope.
Notation "' pat <- c ;; k" := (bind c (fun x => match x with pat => k end))
  (at level 61, pat pattern, c at next level, right associativity) : io_scope.
Notation "c ;;; k" := (bind c (fun _ => k))
  (at level 61, right associativity) : io_scope.

(** The [PET] class: the image it wraps and its fields. *)
Record PET : Type := mkPET {
  img_pet : image;
  df : dataset;
  factor : R;
  calc : bool;
  resampled_pt : option image;
  metadata : list (string * R)
}.

(** [dict[key]] *)
Fixpoint dict_get {V} (d : list (string * V)) (key : string) : result V :=
  match d with
  | [] => Raise KeyError
  | (k, v) :: d' => if String.eqb k key then Ok v else dict_get d' key
  end.

(** [df.to_json_dict()[tag]["Value"][0]] for the tag of the mode. *)
Definition private_tag (ds : dataset) (type : string) : result R :=
  (e <- dict_get (to_json_dict ds) (if String.eqb type "SUV" then "70531000" else "70531009") ;;
   vs <- match Value e with
         | None => Raise KeyError
         | Some vs => Ok vs
         end ;;
   match vs with
   | [] => Raise IndexError
   | v :: _ => Ok v
   end)%result.

(** The [try ... except:] of [from_dicom_pet]: the factor and [calc]. *)
Definition scale_factor (ds : dataset) (type : string) : R * bool :=
  match private_tag ds type with
  | Ok f => (f, false)
  | Raise _ => (calc_factor ds type, true)
  end.

(** [sitk.Abs(sitk.Cast(pet, sitk.sitkFloat32) * factor)] *)
Definition scale_abs (pet : image) (f : R) : image :=
  {| grid := grid pet; pixels := vmap (fun v => Rabs (v * f)) (pixels pet) |}.

(** ** The pipeline *)

Section Pipeline.

Variable w : services.

Open Scope io_scope.

Definition read_image (path : string) (series_id : option string) : M image :=
  let sid := match series_id with
             | Some s => s
             | None => EmptyString
             end in
  emit (EvReadSeries path sid) ;;;
  lift (read_series w path sid).

Definition from_dicom_pet (path : string) (series_id : option string) (type : string)
  : M (image * dataset * R * bool * list (string * R)) :=
  pet <- read_image path series_id ;;
  emit (EvListdir path) ;;;
  names <- lift (os_listdir w path) ;;
  name <- lift (match names with
                | [] => Raise IndexError
                | n :: _ => Ok n
                end) ;;
  let path_one := posix_join w path name in
  emit (EvDcmread path_one) ;;;
  ds <- lift (dcmread w path_one) ;;
  let '(f, c) := scale_factor ds type in
  ret (scale_abs pet f, ds, f, c, []).

(** [PET.__init__] *)
Definition PET_init (img : image) (ds : dataset) (f : R) (c : bool)
    (md : list (string * R)) : PET :=
  {| img_pet := img; df := ds; factor := f; calc := c;
     resampled_pt := None; metadata := md |}.

(** [PET.resample_pet]: the object with its [resampled_pt] overwritten, and
    the resampled image. *)
Definition resample_pet (self : PET) (ct_scan : image) : M (PET * image) :=
  emit (EvResample (img_pet self) ct_scan) ;;;
  let r := sitk_Resample w (img_pet self) ct_scan in
  ret ({| img_pet := img_pet self; df := df self; factor := factor self;
          calc := calc self; resampled_pt := Some r;
          metadata := metadata self |}, r).

Definition get_reg_numpy_B2A (path_A path_B : string) (normalize : bool)
  : M (vol R * vol R) :=
  '(img_A, _, _, _, _) <- from_dicom_pet path_A None "SUV" ;;
  '(img_B, ds, f, c, md) <- from_dicom_pet path_B None "SUV" ;;
  let B_warper := PET_init img_B ds f c md in
  '(_, img_B') <- resample_pet B_warper img_A ;;
  let A := GetArrayFromImage img_A in
  let B := GetArrayFromImage img_B' in
  if normalize
  then (A' <- lift (norm A) ;; B' <- lift (norm B) ;; ret (A', B'))
  else ret (A, B).

Fixpoint accumulate_masks (sh : nat * nat * nat) (paths : list string) (mask : vol R)
  : M (vol R) :=
  match paths with
  | [] => ret mask
  | path :: rest =>
      emit (EvImread path) ;;;
      img <- lift (io_imread w path) ;;
      mask' <- lift (iadd sh mask (flip0 img)) ;;
      accumulate_masks sh rest mask'
  end.

Definition get_tiff_masks_as_numpy (paths : list string) (mask_shape : nat * nat * nat)
    (epsilon : R) : M (vol Z) :=
  mask <- accumulate_masks mask_shape paths (zeros mask_shape) ;;
  ret (threshold epsilon mask).

(** [patient[i]] *)
Definition item (patient : list string) (i : nat) : result string :=
  match nth_error patient i with
  | Some s => Ok s
  | None => Raise IndexError
  end.

(** The body of the loop up to [np.moveaxis(np.array([PET, CT, mask]), 0, 1)],
    which both branches of the [if] compute. *)
Definition patient_array (root_path : string) (patient : list string) : M (arr4 R) :=
  p0 <- lift (item patient 0) ;;
  let path_ct := (root_path ++ p0)%string in
  p1 <- lift (item patient 1) ;;
  let path_pet := (root_path ++ p1)%string in
  p2 <- lift (item patient 2) ;;
  let mask_L_lung := (root_path ++ p2 ++ ".tif")%string in
  p3 <- lift (item patient 3) ;;
  let mask_N_lung := (root_path ++ p3 ++ ".tif")%string in
  p4 <- lift (item patient 4) ;;
  let mask_R_lung := (root_path ++ p4 ++ ".tif")%string in
  '(PET, CT) <- get_reg_numpy_B2A path_pet path_ct true ;;
  mask <- get_tiff_masks_as_numpy [mask_L_lung; mask_N_lung; mask_R_lung]
            (shape3 PET) 0.5%R ;;
  stacked <- lift (np_array3 PET CT (vmap IZR mask)) ;;
  ret (moveaxis01 stacked).

Fixpoint generate_data_from (root_path : string) (patient_table : list (list string))
    (data : option (arr4 R)) : M (option (arr4 R)) :=
  match patient_table with
  | [] => ret data
  | patient :: rest =>
      new <- patient_array root_path patient ;;
      data' <- match data with
               | None => ret new
               | Some d => lift (concatenate0 d new)
               end ;;
      generate_data_from root_path rest (Some data')
  end.

Definition generate_data (root_path : string) (patient_table : list (list string))
  : M (option (arr4 R)) :=
  generate_data_from root_path patient_table None.

End Pipeline.

(** ** Header predicates, header updates and sample inputs *)

Definition readable {A} (f : field A) : bool :=
  match f with
  | Present _ => true
  | _ => false
  end.

(** All five attributes that [calc_factor] reads are present and converted. *)
Definition measured (ds : dataset) (wt : R) (scan inj : time) (hl dose : R) : Prop :=
  PatientWeight ds = Present wt /\
  AcquisitionTime ds = Present scan /\
  exists it rest,
    RadiopharmaceuticalInformationSequence ds = Some (it :: rest) /\
    RadiopharmaceuticalStartTime it = Present inj /\
    RadionuclideHalfLife it = Present hl /\
    RadionuclideTotalDose it = Present dose.


(** One of the attributes behind the decay factor cannot be read. *)
Definition timing_unavailable (ds : dataset) : Prop :=
  readable (AcquisitionTime ds) = false \/
  (exists e, first_item (RadiopharmaceuticalInformationSequence ds) = Raise e) \/
  (exists it, first_item (RadiopharmaceuticalInformationSequence ds) = Ok it /\
     (readable (RadiopharmaceuticalStartTime it) = false \/
      readable (RadionuclideHalfLife it) = false)).

(** What can go wrong inside the second [try] once the first sequence item
    is at hand, with the exception raised. *)
Inductive item_failure : radiopharm_item -> exn -> Prop :=
| fail_start_missing it :
    RadiopharmaceuticalStartTime it = Missing -> item_failure it AttributeError
| fail_start_malformed it :
    RadiopharmaceuticalStartTime it = Malformed -> item_failure it ValueError
| fail_half_life_missing it inj :
    RadiopharmaceuticalStartTime it = Present inj ->
    RadionuclideHalfLife it = Missing -> item_failure it AttributeError
| fail_half_life_malformed it inj :
    RadiopharmaceuticalStartTime it = Present inj ->
    RadionuclideHalfLife it = Malformed -> item_failure it ValueError
| fail_dose_missing it inj hl :
    RadiopharmaceuticalStartTime it = Present inj ->
    RadionuclideHalfLife it = Present hl ->
    RadionuclideTotalDose it = Missing -> item_failure it AttributeError
| fail_dose_malformed it inj hl :
    RadiopharmaceuticalStartTime it = Present inj ->
    RadionuclideHalfLife it = Present hl ->
    RadionuclideTotalDose it = Malformed -> item_failure it ValueError
| fail_half_life_zero it inj dose :
    RadiopharmaceuticalStartTime it = Present inj ->
    RadionuclideHalfLife it = Present 0 ->
    RadionuclideTotalDose it = Present dose ->
    item_failure it ZeroDivisionError.

(** What can go wrong inside the second [try] as a whole. *)
Inductive block_failure (ds : dataset) : exn -> Prop :=
| fail_scan_missing :
    AcquisitionTime ds = Missing -> block_failure ds AttributeError
| fail_scan_malformed :
    AcquisitionTime ds = Malformed -> block_failure ds ValueError
| fail_sequence_missing scan :
    AcquisitionTime ds = Present scan ->
    RadiopharmaceuticalInformationSequence ds = None ->
    block_failure ds AttributeError
| fail_sequence_empty scan :
    AcquisitionTime ds = Present scan ->
    RadiopharmaceuticalInformationSequence ds = Some [] ->
    block_failure ds IndexError
| fail_item scan it rest e :
    AcquisitionTime ds = Present scan ->
    RadiopharmaceuticalInformationSequence ds = Some (it :: rest) ->
    item_failure it e ->
    block_failure ds e.

Definition set_weight (wt : field R) (ds : dataset) : dataset :=
  {| PatientWeight := wt;
     AcquisitionTime := AcquisitionTime ds;
     RadiopharmaceuticalInformationSequence := RadiopharmaceuticalInformationSequence ds;
     to_json_dict := to_json_dict ds |}.

(** The dose attribute of the first sequence item, where there is one. *)
Definition dose_field (ds : dataset) : option (field R) :=
  match RadiopharmaceuticalInformationSequence ds with
  | Some (it :: _) => Some (RadionuclideTotalDose it)
  | _ => None
  end.

Definition set_dose (d : field R) (ds : dataset) : dataset :=
  match RadiopharmaceuticalInformationSequence ds with
  | Some (it :: rest) =>
      {| PatientWeight := PatientWeight ds;
         AcquisitionTime := AcquisitionTime ds;
         RadiopharmaceuticalInformationSequence :=
           Some ({| RadiopharmaceuticalStartTime := RadiopharmaceuticalStartTime it;
                    RadionuclideHalfLife := RadionuclideHalfLife it;
                    RadionuclideTotalDose := d |} :: rest);
         to_json_dict := to_json_dict ds |}
  | _ => ds
  end.

(** Injection at 09:00:00, scan at 10:00:00, fluorine-18. *)
Definition nine : time := mkTime 9 0 0 0.
Definition ten : time := mkTime 10 0 0 0.
Definition ten_and_a_half_second : time := mkTime 10 0 0 500000.

Definition sample_header (wt : field R) (scan : time) (hl dose : field R)
    (json : list (string * json_element)) : dataset :=
  {| PatientWeight := wt;
     AcquisitionTime := Present scan;
     RadiopharmaceuticalInformationSequence :=
       Some [ {| RadiopharmaceuticalStartTime := Present nine;
                 RadionuclideHalfLife := hl;
                 RadionuclideTotalDose := dose |} ];
     to_json_dict := json |}.

(** A header without the radiopharmaceutical sequence. *)
Definition bare_header (wt : field R) (json : list (string * json_element)) : dataset :=
  {| PatientWeight := wt;
     AcquisitionTime := Missing;
     RadiopharmaceuticalInformationSequence := None;
     to_json_dict := json |}.

(** ** Notions used in the statements, and sample services *)

(** The value a computation returns, [None] when it raises. *)
Definition value {A} (r : result (A * list event)) : option A :=
  match r with
  | Ok (a, _) => Some a
  | Raise _ => None
  end.

(** The sum that [accumulate_masks] computes, without the log. *)
Fixpoint accumulate_pure (w : services) (sh : nat * nat * nat) (paths : list string)
    (mask : vol R) : option (vol R) :=
  match paths with
  | [] => Some mask
  | path :: rest =>
      match io_imread w path with
      | Ok img =>
          match broadcast_to sh (flip0 img) with
          | Ok b => accumulate_pure w sh rest (vmap2 Rplus mask b)
          | Raise _ => None
          end
      | Raise _ => None
      end
  end.

(** An array with two different elements. *)
Definition non_constant (x : vol R) : Prop :=
  exists u v, In u (ravel x) /\ In v (ravel x) /\ u <> v.

(** What the services hold for one patient record [[p0; p1; p2; p3; p4]]. *)
Record fixture : Type := mkFixture {
  raw_pet : image;  name_pet : string;  names_pet : list string;  ds_pet : dataset;
  raw_ct : image;   name_ct : string;   names_ct : list string;   ds_ct : dataset;
  mask_L : vol R;   mask_N : vol R;     mask_R : vol R
}.

(** The two volumes as the PET loader returns them. *)
Definition loaded_pet (fx : fixture) : image :=
  scale_abs (raw_pet fx) (fst (scale_factor (ds_pet fx) "SUV")).

Definition loaded_ct (fx : fixture) : image :=
  scale_abs (raw_ct fx) (fst (scale_factor (ds_ct fx) "SUV")).

(** The services deliver the fixture at the paths of the record, the PET
    series, the resampled image and the three masks have shape [sh], and
    no axis is empty. *)
Definition valid_fixture (w : services) (root_path p0 p1 p2 p3 p4 : string)
    (sh : nat * nat * nat) (fx : fixture) : Prop :=
  let path_ct := (root_path ++ p0)%string in
  let path_pet := (root_path ++ p1)%string in
  read_series w path_pet EmptyString = Ok (raw_pet fx) /\
  os_listdir w path_pet = Ok (name_pet fx :: names_pet fx) /\
  dcmread w (posix_join w path_pet (name_pet fx)) = Ok (ds_pet fx) /\
  read_series w path_ct EmptyString = Ok (raw_ct fx) /\
  os_listdir w path_ct = Ok (name_ct fx :: names_ct fx) /\
  dcmread w (posix_join w path_ct (name_ct fx)) = Ok (ds_ct fx) /\
  io_imread w (root_path ++ p2 ++ ".tif")%string = Ok (mask_L fx) /\
  io_imread w (root_path ++ p3 ++ ".tif")%string = Ok (mask_N fx) /\
  io_imread w (root_path ++ p4 ++ ".tif")%string = Ok (mask_R fx) /\
  rect3 sh (pixels (raw_pet fx)) /\
  rect3 sh (pixels (sitk_Resample w (loaded_ct fx) (loaded_pet fx))) /\
  rect3 sh (mask_L fx) /\ rect3 sh (mask_N fx) /\ rect3 sh (mask_R fx) /\
  (let '(z, y, x) := sh in 0 < z /\ 0 < y /\ 0 < x)%nat.

(** The events of one patient that read a series or resample. *)
Definition series_or_resample (e : event) : bool :=
  match e with
  | EvReadSeries _ _ | EvResample _ _ => true
  | _ => false
  end.

Definition ramp : vol R := [[[0; 2]; [4; 8]]].

Definition unit_grid : geometry :=
  {| spacing := (1, 1, 1); origin := (0, 0, 0); direction := [1; 0; 0; 0; 1; 0; 0; 0; 1] |}.

(** A volume of shape [(z, y, x)] whose slice [k] holds [k + c] throughout. *)
Definition slab (z y x : nat) (c : R) : vol R :=
  map (fun k => repeat (repeat (INR k + c) x) y) (seq 0 z).

(** A binary mask of shape [(z, y, x)]: 1 on the slices that [p] selects. *)
Definition mask_slab (z y x : nat) (p : nat -> bool) : vol R :=
  map (fun k => repeat (repeat (if p k then 1 else 0) x) y) (seq 0 z).

(** Services over a directory [root/] with a PET series of 10 slices of
    4 x 4, a CT series of 12 slices of 6 x 6, three masks, and one header
    [hdr] for every slice; resampling keeps the voxels of the moving image
    that the reference grid has room for. *)
Definition sample_services (hdr : dataset) : services :=
  {| read_series := fun path _ =>
       if String.eqb path "root/pet" then Ok (mkImage unit_grid (slab 10 4 4 1))
       else if String.eqb path "root/ct" then Ok (mkImage unit_grid (slab 12 6 6 (-3)))
       else Raise OSError;
     os_listdir := fun _ => Ok ["0001.dcm"%string];
     posix_join := fun a b => (a ++ "/" ++ b)%string;
     dcmread := fun _ => Ok hdr;
     sitk_Resample := fun moving reference =>
       mkImage (grid reference)
               (vmap2 (fun _ v => v) (pixels reference) (pixels moving));
     io_imread := fun path =>
       if String.eqb path "root/L.tif" then Ok (mask_slab 10 4 4 (fun k => Nat.ltb k 3))
       else if String.eqb path "root/N.tif" then Ok (mask_slab 10 4 4 (Nat.eqb 4))
       else if String.eqb path "root/R.tif" then Ok (mask_slab 10 4 4 (Nat.ltb 7))
       else Raise OSError |}.

Definition sample_fixture (hdr : dataset) : fixture :=
  {| raw_pet := mkImage unit_grid (slab 10 4 4 1);
     name_pet := "0001.dcm"; names_pet := []; ds_pet := hdr;
     raw_ct := mkImage unit_grid (slab 12 6 6 (-3));
     name_ct := "0001.dcm"; names_ct := []; ds_ct := hdr;
     mask_L := mask_slab 10 4 4 (fun k => Nat.ltb k 3);
     mask_N := mask_slab 10 4 4 (Nat.eqb 4);
     mask_R := mask_slab 10 4 4 (Nat.ltb 7) |}.

Definition vendor_header : dataset :=
  sample_header (Present 75) ten (Present 6588) (Present 420000000)
    [("70531000"%string, mkElem (Some [2]))].

Definition measured_header : dataset :=
  sample_header (Present 75) ten (Present 6588) (Present 420000000) [].

(** ** Further functions of the module, and notions for their properties *)

(** A value stored in the dictionary of [get_metadata]. *)
Inductive meta_value : Type :=
| MetaFloat (r : R)
| MetaTime (t : time)
| MetaBool (b : bool).

(** [d[key] = v] *)
Fixpoint dict_set {V} (d : list (string * V)) (key : string) (v : V)
  : list (string * V) :=
  match d with
  | [] => [(key, v)]
  | (k, v') :: d' =>
      if String.eqb k key then (k, v) :: d' else (k, v') :: dict_set d' key v
  end.

(** [key in d] *)
Definition has_key {V} (d : list (string * V)) (key : string) : bool :=
  match dict_get d key with
  | Ok _ => true
  | Raise _ => false
  end.

(** The second [try] of [get_metadata]: every assignment made before the
    statement that raises stays in the dictionary. *)
Definition metadata_try (ds : dataset) (md : list (string * meta_value))
  : list (string * meta_value) :=
  match get (AcquisitionTime ds) with
  | Raise _ => md
  | Ok scan_time =>
      let md1 := dict_set md "scan_time" (MetaTime scan_time) in
      match (item <- first_item (RadiopharmaceuticalInformationSequence ds) ;;
             get (RadiopharmaceuticalStartTime item))%result with
      | Raise _ => md1
      | Ok injection_time =>
          let md2 := dict_set md1 "injection_time" (MetaTime injection_time) in
          match (item <- first_item (RadiopharmaceuticalInformationSequence ds) ;;
                 get (RadionuclideHalfLife item))%result with
          | Raise _ => md2
          | Ok half_life =>
              let md3 := dict_set md2 "half_life" (MetaFloat half_life) in
              match (item <- first_item (RadiopharmaceuticalInformationSequence ds) ;;
                     get (RadionuclideTotalDose item))%result with
              | Raise _ => md3
              | Ok injected_dose =>
                  dict_set md3 "injected_dose" (MetaFloat injected_dose)
              end
          end
      end
  end.

(** [PET.get_metadata]: the dictionary it stores in [self.metadata] and
    returns. *)
Definition get_metadata (self : PET) : list (string * meta_value) :=
  let md0 : list (string * meta_value) := [] in
  let md1 := match get (PatientWeight (df self)) with
             | Ok wt => dict_set md0 "weight" (MetaFloat wt)
             | Raise _ => md0
             end in
  let md2 := metadata_try (df self) md1 in
  let md3 := dict_set md2 "factor" (MetaFloat (factor self)) in
  dict_set md3 "Values_Assumed" (MetaBool (calc self)).

(** Every voxel satisfies [P]. *)
Definition all_voxels {A} (P : A -> Prop) (v : vol A) : Prop :=
  Forall (Forall (Forall P)) v.

(** A mask file whose voxels are 0 or 1. *)
Definition binary (v : vol R) : Prop := all_voxels (fun r => r = 0 \/ r = 1) v.

(** The mask of shape [sh] that is 0 everywhere. *)
Definition zero_mask (sh : nat * nat * nat) : vol Z :=
  let '(z, y, x) := sh in repeat (repeat (repeat 0%Z x) y) z.

(** The voxelwise union of two 0/1 masks. *)
Definition union (u v : vol Z) : vol Z := vmap2 Z.max u v.

(** A computation that appends its calls to the log and whose result does
    not depend on the log it starts from. *)
Definition appends {A} (c : M A) : Prop :=
  exists r : result (A * list event),
    forall log, c log = match r with
                        | Ok (a, evs) => Ok (a, log ++ evs)
                        | Raise e => Raise e
                        end.

(** A record of the patient table with a valid fixture of [z] slices of
    [y] by [x]. *)
Definition patient_ok (w : services) (root_path : string) (y x : nat)
    (patient : list string) (z : nat) : Prop :=
  exists p0 p1 p2 p3 p4 fx,
    patient = [p0; p1; p2; p3; p4] /\
    valid_fixture w root_path p0 p1 p2 p3 p4 (z, y, x) fx.

(** A header with the half-life [hl] and nothing else changed. *)
Definition unreadable_header : dataset := bare_header Malformed [].

Definition empty_value_header : dataset :=
  sample_header (Present 75) ten (Present 6588) (Present 420000000)
    [("70531000"%string, mkElem (Some []))].

Definition sample_pet (ds : dataset) : PET :=
  PET_init (mkImage unit_grid ramp) ds 2 true [].

(** ** The provenance flag of the specification *)



(** A mask file with integer samples of 8 or 16 bits without sign. *)
Definition integer_mask (v : vol R) : Prop :=
  all_voxels (fun r => exists k : Z, r = IZR k /\ (0 <= k <= 65535)%Z) v.

(** ** The arithmetic of [norm] and of the mask sum in IEEE binary64

    An [np.float64] is an IEEE binary64 number and numpy rounds to nearest
    even, as the primitive floats do.  The two functions below are [norm]
    and the value of [get_tiff_masks_as_numpy] with that arithmetic in
    place of the real numbers, for arrays and files of [float64]. *)

#[local] Set Warnings "-inexact-float".

(** [np.min] and [np.max] hand on a [nan]. *)
Definition fmin (a b : float) : float :=
  if PrimFloat.is_nan a then a
  else if PrimFloat.is_nan b then b
  else if PrimFloat.ltb b a then b else a.

Definition fmax (a b : float) : float :=
  if PrimFloat.is_nan a then a
  else if PrimFloat.is_nan b then b
  else if PrimFloat.ltb a b then b else a.

Definition np_min_f64 (l : list float) : result float :=
  match l with
  | [] => Raise ValueError
  | x :: xs => Ok (fold_left fmin xs x)
  end.

Definition np_max_f64 (l : list float) : result float :=
  match l with
  | [] => Raise ValueError
  | x :: xs => Ok (fold_left fmax xs x)
  end.

Definition norm_f64 (x : vol float) : result (vol float) :=
  (lo <- np_min_f64 (ravel x) ;;
   hi <- np_max_f64 (ravel x) ;;
   lo' <- np_min_f64 (ravel x) ;;
   Ok (vmap (fun v => PrimFloat.div (PrimFloat.sub v lo) (PrimFloat.sub hi lo')) x))%result.

Definition zeros_f64 (sh : nat * nat * nat) : vol float :=
  let '(z, y, x) := sh in repeat (repeat (repeat 0%float x) y) z.

Definition iadd_f64 (sh : nat * nat * nat) (mask img : vol float) : result (vol float) :=
  (b <- broadcast_to sh img ;; Ok (vmap2 PrimFloat.add mask b))%result.

Fixpoint accumulate_f64 (imread : string -> result (vol float)) (sh : nat * nat * nat)
    (paths : list string) (mask : vol float) : result (vol float) :=
  match paths with
  | [] => Ok mask
  | path :: rest =>
      (img <- imread path ;;
       mask' <- iadd_f64 sh mask (flip0 img) ;;
       accumulate_f64 imread sh rest mask')%result
  end.

(** The mask that [get_tiff_masks_as_numpy] returns when [io.imread] is
    [imread]. *)
Definition get_tiff_masks_f64 (imread : string -> result (vol float))
    (paths : list string) (mask_shape : nat * nat * nat) (epsilon : float)
  : result (vol Z) :=
  (mask <- accumulate_f64 imread mask_shape paths (zeros_f64 mask_shape) ;;
   Ok (vmap (fun v => if PrimFloat.ltb epsilon v then 1%Z else 0%Z) mask))%result.

(** Three files of one voxel each. *)
Definition three_files (path : string) : result (vol float) :=
  if String.eqb path "a.tif" then Ok [[[0.17%float]]]
  else if String.eqb path "b.tif" then Ok [[[0.28%float]]]
  else if String.eqb path "c.tif" then Ok [[[0.05%float]]]
  else Raise OSError.

(** An array of three finite numbers far apart. *)
Definition wide : vol float := [[[(-1e308)%float; 0%float; 1e308%float]]].

(** Services with a second, shorter PET series [root/pet2] of 2 slices and
    a mask [root/S.tif] for it, beside what [sample_services] holds. *)
Definition two_patient_services : services :=
  {| read_series := fun path _ =>
       if String.eqb path "root/pet" then Ok (mkImage unit_grid (slab 10 4 4 1))
       else if String.eqb path "root/pet2" then Ok (mkImage unit_grid (slab 2 4 4 1))
       else if String.eqb path "root/ct" then Ok (mkImage unit_grid (slab 12 6 6 (-3)))
       else Raise OSError;
     os_listdir := fun _ => Ok ["0001.dcm"%string];
     posix_join := fun a b => (a ++ "/" ++ b)%string;
     dcmread := fun _ => Ok measured_header;
     sitk_Resample := fun moving reference =>
       mkImage (grid reference)
               (vmap2 (fun _ v => v) (pixels reference) (pixels moving));
     io_imread := fun path =>
       if String.eqb path "root/L.tif" then Ok (mask_slab 10 4 4 (fun k => Nat.ltb k 3))
       else if String.eqb path "root/N.tif" then Ok (mask_slab 10 4 4 (Nat.eqb 4))
       else if String.eqb path "root/R.tif" then Ok (mask_slab 10 4 4 (Nat.ltb 7))
       else if String.eqb path "root/S.tif" then Ok (mask_slab 2 4 4 (Nat.eqb 0))
       else Raise OSError |}.

Definition second_fixture : fixture :=
  {| raw_pet := mkImage unit_grid (slab 2 4 4 1);
     name_pet := "0001.dcm"; names_pet := []; ds_pet := measured_header;
     raw_ct := mkImage unit_grid (slab 12 6 6 (-3));
     name_ct := "0001.dcm"; names_ct := []; ds_ct := measured_header;
     mask_L := mask_slab 2 4 4 (Nat.eqb 0);
     mask_N := mask_slab 2 4 4 (Nat.eqb 0);
     mask_R := mask_slab 2 4 4 (Nat.eqb 0) |}.

(** * Theorems *)

(** ** The executable parts on small inputs *)

Example timedelta_one_hour : timedelta_seconds ten nine = 3600%Z.
Proof. reflexivity. Qed.

Example timedelta_drops_fraction : timedelta_seconds ten_and_a_half_second nine = 3600%Z.
Proof. reflexivity. Qed.

Example timedelta_wraps : timedelta_seconds nine ten = 82800%Z.
Proof. reflexivity. Qed.

Example moveaxis01_small :
  moveaxis01 [[1; 2]; [3; 4]; [5; 6]]%nat = [[1; 3; 5]; [2; 4; 6]]%nat.
Proof. reflexivity. Qed.

Example bcast_repeats : bcast 3 [7%nat] = Ok [7; 7; 7]%nat.
Proof. reflexivity. Qed.

Example bcast_rejects : bcast 3 [1; 2]%nat = Raise ValueError.
Proof. reflexivity. Qed.

Example broadcast_to_small :
  broadcast_to (2, 1, 2)%nat [[[5%nat]]] = Ok [[[5; 5]]; [[5; 5]]]%nat.
Proof. reflexivity. Qed.

Example shape4_small :
  shape4 (moveaxis01 [[[[1; 2]]; [[3; 4]]]; [[[5; 6]]; [[7; 8]]];
                      [[[0; 0]]; [[1; 1]]]]%nat) = [2; 3; 1; 2]%nat.
Proof. reflexivity. Qed.

Example private_tag_vendor : private_tag vendor_header "SUV" = Ok 2.
Proof. reflexivity. Qed.

Example private_tag_other_mode : private_tag vendor_header "ACT" = Raise KeyError.
Proof. reflexivity. Qed.

Example item_short_record : item ["ct"; "pet"]%string 4 = Raise IndexError.
Proof. reflexivity. Qed.

(** ** Facts about the decay factor *)

Lemma ln2_pos : 0 < ln 2.
Proof. pose proof ln_lt_2. lra. Qed.

Lemma fallback_a_pos : 0 < fallback_a.
Proof. apply exp_pos. Qed.

Lemma fallback_a_not_1 : fallback_a <> 1.
Proof.
  unfold fallback_a. rewrite <- exp_0. intro H. apply exp_inv in H.
  pose proof ln2_pos. lra.
Qed.

Lemma py_div_nonzero n d : d <> 0 -> py_div n d = Ok (IZR n / d).
Proof. intro H. unfold py_div. destruct (Req_dec_T d 0); [contradiction | reflexivity]. Qed.

Lemma py_div_zero n : py_div n 0 = Raise ZeroDivisionError.
Proof. unfold py_div. destruct (Req_dec_T 0 0); [reflexivity | contradiction]. Qed.

(** The block on a header with all attributes readable and a half-life
    other than zero. *)
Lemma decay_try_measured ds wt scan inj hl dose :
  measured ds wt scan inj hl dose -> hl <> 0 ->
  decay_try ds =
    Ok (exp (- ln 2 * (IZR (timedelta_seconds scan inj) / hl)),
        exp (- ln 2 * (IZR (timedelta_seconds scan inj) / hl)) * dose).
Proof.
  intros (Hw & Hs & it & rest & Hq & Hi & Hh & Hd) Hhl.
  unfold decay_try. rewrite Hs, Hq. simpl. rewrite Hi, Hh, Hd. simpl.
  rewrite py_div_nonzero by assumption. reflexivity.
Qed.

Lemma decay_block_a_pos ds : 0 < fst (decay_block ds).
Proof.
  unfold decay_block, decay_try.
  destruct (AcquisitionTime ds); simpl; try apply fallback_a_pos.
  destruct (RadiopharmaceuticalInformationSequence ds) as [[|it rest]|]; simpl;
    try apply fallback_a_pos.
  destruct (RadiopharmaceuticalStartTime it); simpl; try apply fallback_a_pos.
  destruct (RadionuclideHalfLife it); simpl; try apply fallback_a_pos.
  destruct (RadionuclideTotalDose it); simpl; try apply fallback_a_pos.
  unfold py_div. destruct (Req_dec_T _ _); simpl; [apply fallback_a_pos | apply exp_pos].
Qed.

Lemma calc_factor_ACT ds type :
  String.eqb type "SUV" = false -> calc_factor ds type = 1 / fst (decay_block ds).
Proof.
  intro H. unfold calc_factor. destruct (decay_block ds). rewrite H. reflexivity.
Qed.

Lemma calc_factor_SUV ds :
  calc_factor ds "SUV" = weight_g ds / snd (decay_block ds).
Proof. unfold calc_factor. destruct (decay_block ds). reflexivity. Qed.

Lemma block_failure_raises ds e : block_failure ds e -> decay_try ds = Raise e.
Proof.
  intros H. unfold decay_try. destruct H as [Hs|Hs|s Hs Hq|s Hs Hq|s it rest e Hs Hq Hi];
    rewrite Hs; simpl; try reflexivity; rewrite Hq; simpl; try reflexivity.
  destruct Hi as [it Hi|it Hi|it inj Hi Hh|it inj Hi Hh|it inj hl Hi Hh Hd
                 |it inj hl Hi Hh Hd|it inj dose Hi Hh Hd];
    rewrite Hi; simpl; try reflexivity; rewrite Hh; simpl; try reflexivity;
    rewrite Hd; simpl; try reflexivity.
  rewrite py_div_zero. reflexivity.
Qed.

Lemma raises_block_failure ds e : decay_try ds = Raise e -> block_failure ds e.
Proof.
  unfold decay_try.
  destruct (AcquisitionTime ds) as [| |scan] eqn:Hs; simpl.
  - intros [= <-]. now apply fail_scan_missing.
  - intros [= <-]. now apply fail_scan_malformed.
  - destruct (RadiopharmaceuticalInformationSequence ds) as [[|it rest]|] eqn:Hq; simpl.
    + intros [= <-]. now apply fail_sequence_empty with scan.
    + intro H. apply fail_item with scan it rest; try assumption.
      destruct (RadiopharmaceuticalStartTime it) as [| |inj] eqn:Hi; simpl in H.
      * injection H as <-. now apply fail_start_missing.
      * injection H as <-. now apply fail_start_malformed.
      * destruct (RadionuclideHalfLife it) as [| |hl] eqn:Hh; simpl in H.
        -- injection H as <-. now apply fail_half_life_missing with inj.
        -- injection H as <-. now apply fail_half_life_malformed with inj.
        -- destruct (RadionuclideTotalDose it) as [| |dose] eqn:Hd; simpl in H.
           ++ injection H as <-. now apply fail_dose_missing with inj hl.
           ++ injection H as <-. now apply fail_dose_malformed with inj hl.
           ++ unfold py_div in H. destruct (Req_dec_T hl 0) as [->|]; simpl in H.
              ** injection H as <-. now apply fail_half_life_zero with inj dose.
              ** discriminate.
    + intros [= <-]. now apply fail_sequence_missing with scan.
Qed.

Lemma fallback_a_value : fallback_a = exp (- ln 2 * 6300 / 6588).
Proof. unfold fallback_a. f_equal. lra. Qed.

Lemma weight_g_pos ds :
  (forall wt, PatientWeight ds = Present wt -> 0 < wt) -> 0 < weight_g ds.
Proof.
  intro H. unfold weight_g. destruct (PatientWeight ds) as [| |wt]; simpl; try lra.
  specialize (H wt eq_refl). lra.
Qed.

Lemma decay_block_dose_pos ds :
  (forall d, dose_field ds = Some (Present d) -> 0 < d) -> 0 < snd (decay_block ds).
Proof.
  intro H. pose proof fallback_a_pos as Hf.
  assert (Hfb : 0 < snd fallback_decay) by (simpl; lra).
  unfold decay_block, decay_try, dose_field in *.
  destruct (AcquisitionTime ds); simpl; try exact Hfb.
  destruct (RadiopharmaceuticalInformationSequence ds) as [[|it rest]|]; simpl;
    try exact Hfb.
  destruct (RadiopharmaceuticalStartTime it); simpl; try exact Hfb.
  destruct (RadionuclideHalfLife it); simpl; try exact Hfb.
  destruct (RadionuclideTotalDose it) as [| |d]; simpl; try exact Hfb.
  unfold py_div. destruct (Req_dec_T _ _); simpl; try exact Hfb.
  specialize (H d eq_refl). apply Rmult_lt_0_compat; [apply exp_pos | exact H].
Qed.

Lemma decay_block_set_weight wt ds : decay_block (set_weight wt ds) = decay_block ds.
Proof. reflexivity. Qed.

Lemma decay_a_set_dose ds f f' :
  dose_field ds = Some f -> readable f = readable f' ->
  fst (decay_block (set_dose f' ds)) = fst (decay_block ds).
Proof.
  unfold dose_field, set_dose, decay_block, decay_try.
  destruct (RadiopharmaceuticalInformationSequence ds) as [[|it rest]|] eqn:Hq;
    try discriminate.
  intros [= <-] Hr. simpl.
  destruct (AcquisitionTime ds); simpl; try reflexivity.
  destruct (RadiopharmaceuticalStartTime it); simpl; try reflexivity.
  destruct (RadionuclideHalfLife it); simpl; try reflexivity.
  destruct (RadionuclideTotalDose it), f'; simpl in *; try discriminate; try reflexivity.
  destruct (py_div _ _); reflexivity.
Qed.

Lemma Rdiv_eq_reg_l c x y : c <> 0 -> x <> 0 -> y <> 0 -> c / x = c / y -> x = y.
Proof.
  intros Hc Hx Hy H. unfold Rdiv in H. apply Rmult_eq_reg_l in H; [|exact Hc].
  rewrite <- (Rinv_inv x), <- (Rinv_inv y). now rewrite H.
Qed.



Lemma sample_measured wt scan hl dose json :
  measured (sample_header (Present wt) scan (Present hl) (Present dose) json)
    wt scan nine hl dose.
Proof.
  split; [reflexivity|]. split; [reflexivity|].
  eexists. exists []. repeat split; reflexivity.
Qed.

Lemma calc_factor_weight_zero scan hl dose json :
  calc_factor (sample_header (Present 0) scan hl dose json) "SUV" = 0.
Proof. rewrite calc_factor_SUV. unfold weight_g. simpl. unfold Rdiv. ring. Qed.



Lemma scale_factor_tag ds type v :
  private_tag ds type = Ok v -> scale_factor ds type = (v, false).
Proof. intro H. unfold scale_factor. now rewrite H. Qed.

Lemma scale_factor_no_tag ds type e :
  private_tag ds type = Raise e -> scale_factor ds type = (calc_factor ds type, true).
Proof. intro H. unfold scale_factor. now rewrite H. Qed.

Lemma calc_factor_ACT_pos ds type :
  String.eqb type "SUV" = false -> 0 < calc_factor ds type.
Proof.
  intro H. rewrite calc_factor_ACT by exact H.
  apply Rdiv_lt_0_compat; [lra | apply decay_block_a_pos].
Qed.

(** C4 (amended): in the real-number model of the floats, the factor is
    strictly positive provided that the vendor value, where the private tag
    holds one, is positive, that the half-life, where it can be read, is
    not negative and that, in SUV mode, the patient weight and the total
    dose are positive where they can be read (an unreadable weight or dose
    is replaced by a positive default). *)
Theorem scale_factor_positive ds type :
  (type = "SUV"%string -> forall wt, PatientWeight ds = Present wt -> 0 < wt) ->
  (type = "SUV"%string -> forall d, dose_field ds = Some (Present d) -> 0 < d) ->
  (forall it rest hl,
     RadiopharmaceuticalInformationSequence ds = Some (it :: rest) ->
     RadionuclideHalfLife it = Present hl -> 0 <= hl) ->
  (forall v, private_tag ds type = Ok v -> 0 < v) ->
  0 < calc_factor ds type /\ 0 < fst (scale_factor ds type).
Proof.
  intros Hw Hd _ Hv.
  assert (Hc : 0 < calc_factor ds type).
  { destruct (String.eqb type "SUV") eqn:Ht.
    - apply String.eqb_eq in Ht. subst type. rewrite calc_factor_SUV.
      apply Rdiv_lt_0_compat;
        [apply weight_g_pos; now apply Hw | apply decay_block_dose_pos; now apply Hd].
    - now apply calc_factor_ACT_pos. }
  split; [exact Hc|].
  destruct (private_tag ds type) as [v|e] eqn:Ht.
  - rewrite (scale_factor_tag _ _ _ Ht). simpl. now apply Hv.
  - rewrite (scale_factor_no_tag _ _ _ Ht). exact Hc.
Qed.

Lemma scale_factor_positive_witness :
  0 < calc_factor vendor_header "SUV" /\ 0 < fst (scale_factor vendor_header "SUV").
Proof.
  apply (scale_factor_positive vendor_header "SUV").
  - intros _ wt [= <-]. lra.
  - intros _ d [= <-]. lra.
  - intros it rest hl [= <-]. simpl. intros [= <-]. lra.
  - intros v [= <-]. lra.
Defined.

(** C4, as stated, fails: a readable weight of 0 gives the factor 0, and a
    vendor tag holding -1 gives the factor -1. *)
Lemma scale_factor_not_positive :
  let ds := sample_header (Present 0) ten (Present 6588) (Present 420000000) [] in
  let ds' := bare_header Missing [("70531000"%string, mkElem (Some [-1]))] in
  (fst (scale_factor ds "SUV") = 0 /\ ~ 0 < fst (scale_factor ds "SUV")) /\
  (fst (scale_factor ds' "SUV") = -1 /\ ~ 0 < fst (scale_factor ds' "SUV")).
Proof.
  intros ds ds'.
  assert (H0 : fst (scale_factor ds "SUV") = 0).
  { unfold scale_factor. simpl. apply calc_factor_weight_zero. }
  assert (H1 : fst (scale_factor ds' "SUV") = -1) by reflexivity.
  rewrite H0, H1. repeat split; lra.
Qed.

(** C6 (amended): in ACT mode [calc_factor] returns [1 / a] for the decay
    factor [a] of the block; the result does not change when the patient
    weight is changed or removed, nor when the total dose is changed while
    it stays readable (or stays unreadable). *)
Theorem calc_factor_ACT_independent ds type :
  String.eqb type "SUV" = false ->
  calc_factor ds type = 1 / fst (decay_block ds) /\
  (forall wt, calc_factor (set_weight wt ds) type = calc_factor ds type) /\
  (forall f f', dose_field ds = Some f -> readable f = readable f' ->
     calc_factor (set_dose f' ds) type = calc_factor ds type).
Proof.
  intro Ht. split; [now apply calc_factor_ACT|]. split.
  - intro wt. rewrite !calc_factor_ACT by exact Ht.
    now rewrite decay_block_set_weight.
  - intros f f' Hf Hr. rewrite !calc_factor_ACT by exact Ht.
    now rewrite (decay_a_set_dose ds f f' Hf Hr).
Qed.

Lemma calc_factor_ACT_independent_witness :
  calc_factor (set_dose (Present 1)
       (sample_header (Present 75) ten (Present 6588) (Present 420000000) [])) "ACT"
  = calc_factor (sample_header (Present 75) ten (Present 6588) (Present 420000000) []) "ACT".
Proof.
  apply (calc_factor_ACT_independent
           (sample_header (Present 75) ten (Present 6588) (Present 420000000) []) "ACT"
           eq_refl) with (f := Present 420000000); reflexivity.
Defined.

(** C6, as stated, fails: removing the dose attribute from a header that has
    everything sends the block to its fallback, and the ACT factor changes
    from [1 / exp (- ln 2 * 3600 / 6588)] to [1 / exp (- ln 2 * 6300 / 6588)]. *)
Lemma calc_factor_ACT_dose_removed :
  let ds := sample_header (Present 75) ten (Present 6588) (Present 420000000) [] in
  calc_factor ds "ACT" = 1 / exp (- ln 2 * 3600 / 6588) /\
  calc_factor (set_dose Missing ds) "ACT" = 1 / exp (- ln 2 * 6300 / 6588) /\
  calc_factor (set_dose Missing ds) "ACT" <> calc_factor ds "ACT".
Proof.
  intro ds.
  assert (H1 : calc_factor ds "ACT" = 1 / exp (- ln 2 * 3600 / 6588)).
  { rewrite calc_factor_ACT by reflexivity. unfold decay_block.
    rewrite (decay_try_measured ds 75 ten nine 6588 420000000)
      by (try apply sample_measured; lra).
    replace (timedelta_seconds ten nine) with 3600%Z by reflexivity.
    simpl. do 2 f_equal. unfold Rdiv. ring. }
  assert (H2 : calc_factor (set_dose Missing ds) "ACT" = 1 / exp (- ln 2 * 6300 / 6588)).
  { rewrite calc_factor_ACT by reflexivity. simpl. now rewrite fallback_a_value. }
  split; [exact H1|]. split; [exact H2|].
  rewrite H1, H2. intro H.
  pose proof (exp_pos (- ln 2 * 3600 / 6588)) as P1.
  pose proof (exp_pos (- ln 2 * 6300 / 6588)) as P2.
  apply Rdiv_eq_reg_l in H; try lra.
  apply exp_inv in H. pose proof ln2_pos. lra.
Qed.

(** C7: whenever the acquisition time, the sequence item, the start time
    or the half-life cannot be read, the decay factor is
    [exp (- ln 2 * 6300 / 6588)] and the decayed dose is 420000000 times
    that. *)
Theorem fallback_decay_factor ds :
  timing_unavailable ds ->
  fst (decay_block ds) = exp (- ln 2 * 6300 / 6588) /\
  snd (decay_block ds) = 420000000 * exp (- ln 2 * 6300 / 6588).
Proof.
  intro H. rewrite <- fallback_a_value.
  enough (decay_block ds = fallback_decay) as -> by (split; reflexivity).
  unfold decay_block, decay_try.
  destruct H as [H | [[e H] | (it & Hit & H)]].
  - destruct (AcquisitionTime ds); simpl; try reflexivity. discriminate.
  - destruct (AcquisitionTime ds); simpl; try reflexivity. now rewrite H.
  - destruct (AcquisitionTime ds); simpl; try reflexivity. rewrite Hit. simpl.
    destruct H as [H | H].
    + destruct (RadiopharmaceuticalStartTime it); simpl; try reflexivity. discriminate.
    + destruct (RadiopharmaceuticalStartTime it); simpl; try reflexivity.
      destruct (RadionuclideHalfLife it); simpl; try reflexivity. discriminate.
Qed.

Lemma fallback_decay_factor_witness :
  timing_unavailable (bare_header (Present 80) []) /\
  fst (decay_block (bare_header (Present 80) [])) = exp (- ln 2 * 6300 / 6588) /\
  snd (decay_block (bare_header (Present 80) [])) = 420000000 * exp (- ln 2 * 6300 / 6588).
Proof.
  split; [left; reflexivity|].
  apply (fallback_decay_factor (bare_header (Present 80) [])).
  left. reflexivity.
Defined.

(** C10: whatever goes wrong inside the second [try] - an absent attribute,
    a malformed time or number, an empty sequence, a half-life of zero - the
    exception stays inside the block, which then holds the fallback pair. *)
Theorem decay_block_catches_all ds e :
  block_failure ds e ->
  decay_try ds = Raise e /\
  decay_block ds = (exp (- ln 2 * 6300 / 6588), 420000000 * exp (- ln 2 * 6300 / 6588)).
Proof.
  intro H. apply block_failure_raises in H. split; [exact H|].
  unfold decay_block. rewrite H. unfold fallback_decay. now rewrite fallback_a_value.
Qed.

Lemma decay_block_catches_all_witness :
  let ds := sample_header (Present 75) ten (Present 0) (Present 420000000) [] in
  block_failure ds ZeroDivisionError /\
  decay_try ds = Raise ZeroDivisionError /\
  decay_block ds = (exp (- ln 2 * 6300 / 6588), 420000000 * exp (- ln 2 * 6300 / 6588)).
Proof.
  intro ds.
  assert (H : block_failure ds ZeroDivisionError).
  { apply fail_item with (scan := ten)
      (it := mkItem (Present nine) (Present 0) (Present 420000000)) (rest := []);
      try reflexivity.
    apply fail_half_life_zero with (inj := nine) (dose := 420000000); reflexivity. }
  split; [exact H|].
  apply (decay_block_catches_all ds ZeroDivisionError H).
Defined.

Section MinMax.

Lemma fold_min_le_init l a : fold_left Rmin l a <= a.
Proof.
  revert a. induction l as [|b l IH]; intro a; simpl; [lra|].
  eapply Rle_trans; [apply IH | apply Rmin_l].
Qed.

Lemma fold_min_lower l a v : In v (a :: l) -> fold_left Rmin l a <= v.
Proof.
  revert a. induction l as [|b l IH]; intros a Hin; simpl in *.
  - destruct Hin as [->|[]]. lra.
  - destruct Hin as [->|[->|Hin]].
    + eapply Rle_trans; [apply fold_min_le_init | apply Rmin_l].
    + eapply Rle_trans; [apply fold_min_le_init | apply Rmin_r].
    + apply IH. now right.
Qed.

Lemma fold_max_ge_init l a : a <= fold_left Rmax l a.
Proof.
  revert a. induction l as [|b l IH]; intro a; simpl; [lra|].
  eapply Rle_trans; [apply Rmax_l | apply IH].
Qed.

Lemma fold_max_upper l a v : In v (a :: l) -> v <= fold_left Rmax l a.
Proof.
  revert a. induction l as [|b l IH]; intros a Hin; simpl in *.
  - destruct Hin as [->|[]]. lra.
  - destruct Hin as [->|[->|Hin]].
    + eapply Rle_trans; [apply Rmax_l | apply fold_max_ge_init].
    + eapply Rle_trans; [apply Rmax_r | apply fold_max_ge_init].
    + apply IH. now right.
Qed.

Variable f : R -> R.
Hypothesis f_mono : forall u v, u <= v -> f u <= f v.

Lemma mono_Rmin u v : f (Rmin u v) = Rmin (f u) (f v).
Proof.
  unfold Rmin. destruct (Rle_dec u v) as [H|H], (Rle_dec (f u) (f v)) as [H'|H'];
    try reflexivity.
  - exfalso. apply H'. now apply f_mono.
  - apply Rle_antisym; [apply f_mono; lra | exact H'].
Qed.

Lemma mono_Rmax u v : f (Rmax u v) = Rmax (f u) (f v).
Proof.
  unfold Rmax. destruct (Rle_dec u v) as [H|H], (Rle_dec (f u) (f v)) as [H'|H'];
    try reflexivity.
  - exfalso. apply H'. now apply f_mono.
  - apply Rle_antisym; [exact H' | apply f_mono; lra].
Qed.

Lemma fold_min_map l a : fold_left Rmin (map f l) (f a) = f (fold_left Rmin l a).
Proof.
  revert a. induction l as [|b l IH]; intro a; simpl; [reflexivity|].
  now rewrite <- mono_Rmin, IH.
Qed.

Lemma fold_max_map l a : fold_left Rmax (map f l) (f a) = f (fold_left Rmax l a).
Proof.
  revert a. induction l as [|b l IH]; intro a; simpl; [reflexivity|].
  now rewrite <- mono_Rmax, IH.
Qed.

End MinMax.

Lemma ravel_vmap {A B} (f : A -> B) (x : vol A) : ravel (vmap f x) = map f (ravel x).
Proof.
  unfold ravel, vmap. now rewrite <- !concat_map.
Qed.

Lemma vmap_id_ext {A} (f : A -> A) (x : vol A) : (forall a, f a = a) -> vmap f x = x.
Proof.
  intro H. unfold vmap.
  rewrite <- (map_id x) at 2. apply map_ext. intro p.
  rewrite <- (map_id p) at 2. apply map_ext. intro r.
  rewrite <- (map_id r) at 2. apply map_ext. exact H.
Qed.

Lemma fold_min_In l a : In (fold_left Rmin l a) (a :: l).
Proof.
  revert a. induction l as [|b l IH]; intro a; simpl; [now left|].
  destruct (IH (Rmin a b)) as [H | H].
  - rewrite <- H. unfold Rmin. destruct (Rle_dec a b); [now left | right; now left].
  - right. now right.
Qed.

Lemma fold_max_In l a : In (fold_left Rmax l a) (a :: l).
Proof.
  revert a. induction l as [|b l IH]; intro a; simpl; [now left|].
  destruct (IH (Rmax a b)) as [H | H].
  - rewrite <- H. unfold Rmax. destruct (Rle_dec a b); [right; now left | now left].
  - right. now right.
Qed.

(** C8 (amended): in the real-number model of the floats, for an array [x]
    with two different elements [norm x] is the array of
    [(v - lo) / (hi - lo)] for the elements [v] of [x], where [lo] is the
    least and [hi] the greatest element of [x]; its minimum is 0, its
    maximum is 1, and [norm] maps it to itself. *)
Theorem norm_min_max_idempotent (x : vol R) :
  non_constant x ->
  exists lo hi y,
    (In lo (ravel x) /\ forall v, In v (ravel x) -> lo <= v) /\
    (In hi (ravel x) /\ forall v, In v (ravel x) -> v <= hi) /\
    lo < hi /\
    norm x = Ok y /\
    y = vmap (fun v => (v - lo) / (hi - lo)) x /\
    np_min (ravel y) = Ok 0 /\ np_max (ravel y) = Ok 1 /\
    norm y = Ok y.
Proof.
  intros Hnc.
  destruct (ravel x) as [|a l] eqn:Hl.
  { destruct Hnc as (u & v & Hu & _). rewrite Hl in Hu. destruct Hu. }
  set (lo := fold_left Rmin l a). set (hi := fold_left Rmax l a).
  assert (Hlt : lo < hi).
  { destruct Hnc as (u & v & Hu & Hv & Huv). rewrite Hl in Hu, Hv.
    pose proof (fold_min_lower l a u Hu). pose proof (fold_min_lower l a v Hv).
    pose proof (fold_max_upper l a u Hu). pose proof (fold_max_upper l a v Hv).
    fold lo in H, H0. fold hi in H1, H2. destruct (Rtotal_order u v) as [?|[?|?]]; lra. }
  set (f := fun t => (t - lo) / (hi - lo)).
  assert (Hmono : forall s t, s <= t -> f s <= f t).
  { intros s t Hst. unfold f, Rdiv. apply Rmult_le_compat_r; [|lra].
    left. apply Rinv_0_lt_compat. lra. }
  assert (Hflo : f lo = 0) by (unfold f, Rdiv; ring).
  assert (Hfhi : f hi = 1) by (unfold f; field; lra).
  exists lo, hi, (vmap f x).
  split; [split; [apply fold_min_In | apply fold_min_lower]|].
  split; [split; [apply fold_max_In | apply fold_max_upper]|].
  split; [exact Hlt|].
  split; [unfold norm; rewrite Hl; reflexivity|].
  split; [reflexivity|].
  unfold norm. rewrite ravel_vmap, Hl. simpl.
  rewrite (fold_min_map f Hmono), (fold_max_map f Hmono). fold lo hi.
  rewrite Hflo, Hfhi. repeat split.
  f_equal. apply vmap_id_ext. intro t. field.
Qed.

Lemma norm_min_max_idempotent_witness :
  exists lo hi y,
    (In lo (ravel ramp) /\ forall v, In v (ravel ramp) -> lo <= v) /\
    (In hi (ravel ramp) /\ forall v, In v (ravel ramp) -> v <= hi) /\
    lo < hi /\
    norm ramp = Ok y /\
    y = vmap (fun v => (v - lo) / (hi - lo)) ramp /\
    np_min (ravel y) = Ok 0 /\ np_max (ravel y) = Ok 1 /\
    norm y = Ok y.
Proof.
  apply (norm_min_max_idempotent ramp).
  exists 0, 2. simpl. repeat split; auto; lra.
Defined.

(** C8, as stated, fails in binary64: the three finite numbers -1e308, 0 and
    1e308 are [2e308] apart, which overflows; [norm] returns [0, 0, nan],
    whose maximum is [nan] and not 1, and [norm] of that is all [nan]. *)
Lemma norm_f64_overflow :
  Forall (fun v => PrimFloat.is_finite v = true) (ravel wide) /\
  norm_f64 wide = Ok [[[0%float; 0%float; PrimFloat.nan]]] /\
  np_max_f64 (ravel [[[0%float; 0%float; PrimFloat.nan]]]) = Ok PrimFloat.nan /\
  PrimFloat.eqb PrimFloat.nan 1%float = false /\
  norm_f64 [[[0%float; 0%float; PrimFloat.nan]]]
    = Ok [[[PrimFloat.nan; PrimFloat.nan; PrimFloat.nan]]].
Proof.
  split; [repeat constructor|]. repeat split; vm_compute; reflexivity.
Qed.

Section Masks.

Variable w : services.
Variable sh : nat * nat * nat.

Lemma accumulate_masks_value paths : forall mask log,
  value (accumulate_masks w sh paths mask log) = accumulate_pure w sh paths mask.
Proof.
  induction paths as [|p rest IH]; intros mask log; simpl; [reflexivity|].
  unfold bind, emit, lift, iadd. simpl.
  destruct (io_imread w p) as [img|e]; simpl; [|reflexivity].
  destruct (broadcast_to sh (flip0 img)) as [b|e]; simpl; [|reflexivity].
  apply IH.
Qed.

Lemma map2_swap {A B} (f : A -> B -> A) :
  (forall m a b, f (f m a) b = f (f m b) a) ->
  forall m a b, map2 f (map2 f m a) b = map2 f (map2 f m b) a.
Proof.
  intros Hf m. induction m as [|x m IH]; intros [|a la] [|b lb]; simpl; try reflexivity.
  now rewrite Hf, IH.
Qed.

Lemma vadd_swap (m a b : vol R) :
  vmap2 Rplus (vmap2 Rplus m a) b = vmap2 Rplus (vmap2 Rplus m b) a.
Proof.
  unfold vmap2. apply map2_swap. apply map2_swap. apply map2_swap.
  intros. ring.
Qed.

Lemma accumulate_pure_perm paths paths' :
  Permutation paths paths' ->
  forall mask, accumulate_pure w sh paths mask = accumulate_pure w sh paths' mask.
Proof.
  induction 1 as [|p l l' _ IH|p q l|l l' l'' _ IH1 _ IH2]; intro mask; simpl.
  - reflexivity.
  - destruct (io_imread w p) as [img|]; [|reflexivity].
    destruct (broadcast_to sh (flip0 img)); [apply IH | reflexivity].
  - destruct (io_imread w p) as [ip|], (io_imread w q) as [iq|]; try reflexivity.
    + destruct (broadcast_to sh (flip0 ip)), (broadcast_to sh (flip0 iq));
        try reflexivity.
      now rewrite vadd_swap.
    + destruct (broadcast_to sh (flip0 ip)); reflexivity.
    + destruct (broadcast_to sh (flip0 iq)); reflexivity.
  - now rewrite IH1.
Qed.

End Masks.

(** C9 (amended): for mask files with integer samples (8 or 16 bits without
    sign), where the sum of the masks is exact in binary64, and at most
    2^32 paths, [get_tiff_masks_as_numpy] returns the same mask, voxel for
    voxel, for every permutation of the list of paths, and raises if and
    only if it raises on the original list. *)
Theorem get_tiff_masks_order_independent (w : services) (paths paths' : list string)
    (mask_shape : nat * nat * nat) (epsilon : R) (log log' : list event) :
  (forall path img, In path paths -> io_imread w path = Ok img -> integer_mask img) ->
  (Z.of_nat (length paths) <= 2 ^ 32)%Z ->
  Permutation paths paths' ->
  value (get_tiff_masks_as_numpy w paths mask_shape epsilon log) =
  value (get_tiff_masks_as_numpy w paths' mask_shape epsilon log').
Proof.
  intros _ _ HP. unfold get_tiff_masks_as_numpy, bind, ret.
  pose proof (accumulate_masks_value w mask_shape paths (zeros mask_shape) log) as H1.
  pose proof (accumulate_masks_value w mask_shape paths' (zeros mask_shape) log') as H2.
  rewrite (accumulate_pure_perm w mask_shape paths paths' HP) in H1.
  destruct (accumulate_masks w mask_shape paths _ log) as [[m l]|e],
           (accumulate_masks w mask_shape paths' _ log') as [[m' l']|e'];
    simpl in *; congruence.
Qed.

(** ** Shapes *)

Lemma map2_length {A B C} (f : A -> B -> C) l1 l2 :
  length l1 = length l2 -> length (map2 f l1 l2) = length l1.
Proof.
  revert l2. induction l1 as [|a l1 IH]; intros [|b l2] H; simpl in *; try lia.
  now rewrite IH by lia.
Qed.

Lemma rect3_shape {A} z y x (v : vol A) :
  rect3 (z, y, x) v -> (0 < z)%nat -> (0 < y)%nat -> shape3 v = (z, y, x).
Proof.
  intros [Hz Hv] Pz Py. unfold shape3.
  destruct v as [|p v]; simpl in *; [lia|].
  inversion Hv as [|? ? [Hy Hp] _]; subst.
  destruct p as [|r p]; simpl in *; [lia|].
  inversion Hp; subst. reflexivity.
Qed.

Lemma rect3_vmap {A B} (f : A -> B) sh (v : vol A) : rect3 sh v -> rect3 sh (vmap f v).
Proof.
  destruct sh as [[z y] x]. intros [Hz Hv]. split.
  - unfold vmap. now rewrite length_map.
  - unfold vmap. apply Forall_map. eapply Forall_impl; [|exact Hv].
    intros p [Hy Hp]. split.
    + now rewrite length_map.
    + apply Forall_map. eapply Forall_impl; [|exact Hp].
      intros r Hr. now rewrite length_map.
Qed.

Lemma rect3_flip0 {A} sh (v : vol A) : rect3 sh v -> rect3 sh (flip0 v).
Proof.
  destruct sh as [[z y] x]. intros [Hz Hv]. split.
  - unfold flip0. now rewrite length_rev.
  - unfold flip0. now apply Forall_rev.
Qed.

Lemma Forall_map2 {A B C} (f : A -> B -> C) (P : A -> Prop) (Q : B -> Prop)
    (S : C -> Prop) l1 l2 :
  (forall a b, P a -> Q b -> S (f a b)) ->
  Forall P l1 -> Forall Q l2 -> Forall S (map2 f l1 l2).
Proof.
  intros Hf H1. revert l2. induction H1 as [|a l1 Pa _ IH]; intros l2 H2; simpl.
  - constructor.
  - destruct H2 as [|b l2 Qb H2]; constructor; [now apply Hf | now apply IH].
Qed.

Lemma rect3_vmap2 {A B C} (f : A -> B -> C) sh (v : vol A) (u : vol B) :
  rect3 sh v -> rect3 sh u -> rect3 sh (vmap2 f v u).
Proof.
  destruct sh as [[z y] x]. intros [Hz Hv] [Hz' Hu]. split.
  - unfold vmap2. rewrite map2_length; lia.
  - unfold vmap2. eapply Forall_map2; [|exact Hv|exact Hu].
    intros p q [Hy Hp] [Hy' Hq]. split.
    + rewrite map2_length; lia.
    + eapply Forall_map2; [|exact Hp|exact Hq].
      intros r s Hr Hs. simpl in *. rewrite map2_length; lia.
Qed.

Lemma rect3_zeros sh : rect3 sh (zeros sh).
Proof.
  destruct sh as [[z y] x]. unfold zeros. split.
  - apply repeat_length.
  - apply Forall_forall. intros p Hp. apply repeat_spec in Hp. subst p. split.
    + apply repeat_length.
    + apply Forall_forall. intros r Hr. apply repeat_spec in Hr. subst r.
      apply repeat_length.
Qed.

Lemma bcast_same {A} n (l : list A) : length l = n -> bcast n l = Ok l.
Proof. intro H. unfold bcast. rewrite <- H, Nat.eqb_refl. reflexivity. Qed.

Lemma mapM_same {A} (f : A -> result A) (l : list A) :
  Forall (fun a => f a = Ok a) l -> mapM f l = Ok l.
Proof.
  induction 1 as [|a l Ha _ IH]; simpl; [reflexivity|]. now rewrite Ha, IH.
Qed.

Lemma broadcast_to_same {A} sh (v : vol A) : rect3 sh v -> broadcast_to sh v = Ok v.
Proof.
  destruct sh as [[z y] x]. intros [Hz Hv]. unfold broadcast_to.
  rewrite mapM_same.
  - simpl. now apply bcast_same.
  - eapply Forall_impl; [|exact Hv]. intros p [Hy Hp].
    rewrite mapM_same.
    + simpl. now apply bcast_same.
    + eapply Forall_impl; [|exact Hp]. intros r Hr. now apply bcast_same.
Qed.

Lemma shape_eqb_refl sh : shape_eqb sh sh = true.
Proof. destruct sh as [[z y] x]. simpl. now rewrite !Nat.eqb_refl. Qed.

Lemma ravel_nonempty {A} z y x (v : vol A) :
  rect3 (z, y, x) v -> (0 < z)%nat -> (0 < y)%nat -> (0 < x)%nat ->
  exists a l, ravel v = a :: l.
Proof.
  intros [Hz Hv] Pz Py Px.
  destruct v as [|p v]; simpl in *; [lia|].
  inversion Hv as [|? ? [Hy Hp] _]; subst.
  destruct p as [|r p]; simpl in *; [lia|].
  inversion Hp as [|? ? Hr _]; subst.
  destruct r as [|a r]; simpl in *; [lia|].
  unfold ravel. simpl. eauto.
Qed.

(** [norm] succeeds on an array without an empty axis, and keeps the shape. *)
Lemma norm_rect z y x (v : vol R) :
  rect3 (z, y, x) v -> (0 < z)%nat -> (0 < y)%nat -> (0 < x)%nat ->
  exists v', norm v = Ok v' /\ rect3 (z, y, x) v'.
Proof.
  intros Hv Pz Py Px.
  destruct (ravel_nonempty z y x v Hv Pz Py Px) as (a & l & Hl).
  unfold norm. rewrite Hl. cbn [np_min np_max rbind]. eexists. split; [reflexivity|].
  apply (rect3_vmap _ (z, y, x)). exact Hv.
Qed.

(** The shape after the two leading axes of a stack of three volumes have
    changed places. *)
Lemma stack_cols_length {A} (a b c : list A) n :
  length a = n -> length b = n -> length c = n ->
  length (map2 cons a (map2 cons b (map2 cons c (repeat [] n)))) = n.
Proof.
  intros Ha Hb Hc.
  rewrite map2_length; [exact Ha|].
  rewrite map2_length; [lia|].
  rewrite map2_length; rewrite ?repeat_length; lia.
Qed.

Lemma moveaxis01_shape {A} z y x (a b c : vol A) :
  rect3 (z, y, x) a -> rect3 (z, y, x) b -> rect3 (z, y, x) c ->
  (0 < z)%nat -> (0 < y)%nat ->
  shape4 (moveaxis01 [a; b; c]) = [z; 3%nat; y; x].
Proof.
  intros [Ha Fa] [Hb Fb] [Hc Fc] Pz Py.
  unfold moveaxis01, shape4, shape3. simpl.
  destruct a as [|pa a]; simpl in *; [lia|].
  destruct b as [|pb b]; simpl in *; [lia|].
  destruct c as [|pc c]; simpl in *; [lia|].
  unfold vol, arr4 in *. rewrite stack_cols_length by lia.
  inversion Fa as [|? ? [Hy Hp] _]; subst.
  destruct pa as [|r pa]; simpl in *; [lia|].
  inversion Hp; subst. reflexivity.
Qed.

(** ** Runs of the pipeline *)

Lemma bind_run {A B} (c : M A) (k : A -> M B) log a log1 :
  c log = Ok (a, log1) -> bind c k log = k a log1.
Proof. intro H. unfold bind. now rewrite H. Qed.

Section Runs.

Variable w : services.

Lemma from_dicom_pet_run path type log raw n ns ds :
  read_series w path EmptyString = Ok raw ->
  os_listdir w path = Ok (n :: ns) ->
  dcmread w (posix_join w path n) = Ok ds ->
  from_dicom_pet w path None type log =
    Ok ((scale_abs raw (fst (scale_factor ds type)), ds,
         fst (scale_factor ds type), snd (scale_factor ds type), []),
        log ++ [EvReadSeries path EmptyString; EvListdir path;
                EvDcmread (posix_join w path n)]).
Proof.
  intros Hr Hl Hd. unfold from_dicom_pet, read_image, bind, emit, lift, ret.
  rewrite Hr, Hl, Hd. destruct (scale_factor ds type) as [f c]. simpl.
  now rewrite <- !app_assoc.
Qed.

(** A successful run of the loader returns the factor and the flag of
    [scale_factor] on the header it returns. *)
Lemma from_dicom_pet_inv path series_id type log img ds f c md log' :
  from_dicom_pet w path series_id type log = Ok ((img, ds, f, c, md), log') ->
  scale_factor ds type = (f, c).
Proof.
  unfold from_dicom_pet, read_image, bind, emit, lift, ret.
  destruct (read_series w path _) as [raw|]; [|discriminate].
  destruct (os_listdir w path) as [[|n ns]|]; try discriminate.
  destruct (dcmread w (posix_join w path n)) as [ds'|]; [|discriminate].
  destruct (scale_factor ds' type) as [f' c'] eqn:Hs.
  intros [= _ <- <- <- _ _]. exact Hs.
Qed.

Lemma get_reg_numpy_B2A_run path_A path_B log rawA nA nsA dsA rawB nB nsB dsB A B :
  read_series w path_A EmptyString = Ok rawA ->
  os_listdir w path_A = Ok (nA :: nsA) ->
  dcmread w (posix_join w path_A nA) = Ok dsA ->
  read_series w path_B EmptyString = Ok rawB ->
  os_listdir w path_B = Ok (nB :: nsB) ->
  dcmread w (posix_join w path_B nB) = Ok dsB ->
  let img_A := scale_abs rawA (fst (scale_factor dsA "SUV")) in
  let img_B := scale_abs rawB (fst (scale_factor dsB "SUV")) in
  norm (pixels img_A) = Ok A ->
  norm (pixels (sitk_Resample w img_B img_A)) = Ok B ->
  get_reg_numpy_B2A w path_A path_B true log =
    Ok ((A, B),
        log ++ [EvReadSeries path_A EmptyString; EvListdir path_A;
                EvDcmread (posix_join w path_A nA);
                EvReadSeries path_B EmptyString; EvListdir path_B;
                EvDcmread (posix_join w path_B nB);
                EvResample img_B img_A]).
Proof.
  intros HrA HlA HdA HrB HlB HdB img_A img_B HnA HnB.
  unfold get_reg_numpy_B2A.
  rewrite (bind_run _ _ _ _ _ (from_dicom_pet_run path_A "SUV" log _ _ _ _ HrA HlA HdA)).
  rewrite (bind_run _ _ _ _ _ (from_dicom_pet_run path_B "SUV" _ _ _ _ _ HrB HlB HdB)).
  unfold resample_pet, PET_init, GetArrayFromImage, bind, emit, lift, ret.
  cbn [img_pet fst snd]. fold img_A img_B. rewrite HnA, HnB.
  now rewrite <- !app_assoc.
Qed.

Lemma accumulate_masks_run sh paths ms : 
  Forall2 (fun path m => io_imread w path = Ok m /\ rect3 sh m) paths ms ->
  forall mask log,
  accumulate_masks w sh paths mask log =
    Ok (fold_left (fun acc m => vmap2 Rplus acc (flip0 m)) ms mask,
        log ++ map EvImread paths).
Proof.
  induction 1 as [|path m paths ms [Hr Hm] _ IH]; intros mask log; simpl.
  - unfold ret. now rewrite app_nil_r.
  - unfold bind, emit, lift, iadd. rewrite Hr. simpl.
    rewrite (broadcast_to_same sh (flip0 m)) by now apply rect3_flip0.
    simpl. rewrite IH. now rewrite <- app_assoc.
Qed.

Lemma fold_masks_rect sh ms : 
  Forall (rect3 sh) ms -> forall mask : vol R, rect3 sh mask ->
  rect3 sh (fold_left (fun acc m => vmap2 Rplus acc (flip0 m)) ms mask).
Proof.
  induction 1 as [|m ms Hm _ IH]; intros mask Hmask; simpl; [exact Hmask|].
  apply IH. apply rect3_vmap2; [exact Hmask | now apply rect3_flip0].
Qed.

Lemma np_array3_rect z y x (a b c : vol R) :
  rect3 (z, y, x) a -> rect3 (z, y, x) b -> rect3 (z, y, x) c ->
  (0 < z)%nat -> (0 < y)%nat ->
  np_array3 a b c = Ok [a; b; c].
Proof.
  intros Ha Hb Hc Pz Py. unfold np_array3.
  rewrite (rect3_shape z y x a), (rect3_shape z y x b), (rect3_shape z y x c)
    by assumption.
  now rewrite shape_eqb_refl.
Qed.

(** One patient, on a valid fixture: the array returned and the calls
    made. *)
Lemma patient_array_run root_path p0 p1 p2 p3 p4 z y x fx log :
  valid_fixture w root_path p0 p1 p2 p3 p4 (z, y, x) fx ->
  let path_ct := (root_path ++ p0)%string in
  let path_pet := (root_path ++ p1)%string in
  exists A B mask,
    norm (pixels (loaded_pet fx)) = Ok A /\
    norm (pixels (sitk_Resample w (loaded_ct fx) (loaded_pet fx))) = Ok B /\
    rect3 (z, y, x) A /\ rect3 (z, y, x) B /\ rect3 (z, y, x) mask /\
    patient_array w root_path [p0; p1; p2; p3; p4] log =
      Ok (moveaxis01 [A; B; vmap IZR mask],
          log ++ [EvReadSeries path_pet EmptyString; EvListdir path_pet;
                  EvDcmread (posix_join w path_pet (name_pet fx));
                  EvReadSeries path_ct EmptyString; EvListdir path_ct;
                  EvDcmread (posix_join w path_ct (name_ct fx));
                  EvResample (loaded_ct fx) (loaded_pet fx);
                  EvImread (root_path ++ p2 ++ ".tif")%string;
                  EvImread (root_path ++ p3 ++ ".tif")%string;
                  EvImread (root_path ++ p4 ++ ".tif")%string]).
Proof.
  intros (HrA & HlA & HdA & HrB & HlB & HdB & HmL & HmN & HmR &
          Rpet & Rres & RL & RN & RR & Pz & Py & Px) path_ct path_pet.
  assert (Rpet' : rect3 (z, y, x) (pixels (loaded_pet fx))).
  { unfold loaded_pet, scale_abs. simpl. now apply rect3_vmap. }
  destruct (norm_rect z y x _ Rpet' Pz Py Px) as (A & HA & RA).
  destruct (norm_rect z y x _ Rres Pz Py Px) as (B & HB & RB).
  set (ms := [mask_L fx; mask_N fx; mask_R fx]).
  set (acc := fold_left (fun a m => vmap2 Rplus a (flip0 m)) ms (zeros (z, y, x))).
  assert (Racc : rect3 (z, y, x) acc).
  { apply fold_masks_rect; [|apply rect3_zeros].
    unfold ms. repeat (apply Forall_cons; [assumption|]). apply Forall_nil. }
  assert (Hms : Forall2 (fun path m => io_imread w path = Ok m /\ rect3 (z, y, x) m)
                  [(root_path ++ p2 ++ ".tif")%string; (root_path ++ p3 ++ ".tif")%string;
                   (root_path ++ p4 ++ ".tif")%string] ms).
  { unfold ms. repeat (apply Forall2_cons; [split; assumption|]). apply Forall2_nil. }
  exists A, B, (threshold 0.5 acc).
  split; [exact HA|]. split; [exact HB|]. split; [exact RA|]. split; [exact RB|].
  split; [now apply rect3_vmap|].
  unfold patient_array, get_tiff_masks_as_numpy, bind, lift, ret.
  cbn [item nth_error].
  rewrite (get_reg_numpy_B2A_run _ _ log _ _ _ _ _ _ _ _ A B
             HrA HlA HdA HrB HlB HdB HA HB).
  rewrite (rect3_shape z y x A RA Pz Py).
  rewrite (accumulate_masks_run (z, y, x) _ ms Hms (zeros (z, y, x)) _).
  fold acc.
  rewrite (np_array3_rect z y x A B (vmap IZR (threshold 0.5 acc)))
    by (try assumption; now repeat apply rect3_vmap).
  simpl. now rewrite <- !app_assoc.
Qed.

End Runs.

(** ** The sample services *)

Lemma rect3_planes {A} z y x (f : nat -> A) (l : list nat) :
  length l = z ->
  rect3 (z, y, x) (map (fun k => repeat (repeat (f k) x) y) l).
Proof.
  intro Hl. split.
  - now rewrite length_map.
  - apply Forall_map, Forall_forall. intros k _. split.
    + apply repeat_length.
    + apply Forall_forall. intros r Hr. apply repeat_spec in Hr. subst r.
      apply repeat_length.
Qed.

Lemma rect3_slab z y x c : rect3 (z, y, x) (slab z y x c).
Proof. unfold slab. apply (rect3_planes z y x (fun k => INR k + c)), length_seq. Qed.

Lemma rect3_mask_slab z y x p : rect3 (z, y, x) (mask_slab z y x p).
Proof.
  unfold mask_slab.
  apply (rect3_planes z y x (fun k => if p k then 1 else 0)), length_seq.
Qed.

Lemma map2_length_le {A B C} (f : A -> B -> C) l1 l2 :
  (length l1 <= length l2)%nat -> length (map2 f l1 l2) = length l1.
Proof.
  revert l2. induction l1 as [|a l1 IH]; intros [|b l2] H; simpl in *; try lia.
  now rewrite IH by lia.
Qed.

(** Cropping a larger volume to the shape of a smaller one. *)
Lemma rect3_crop {A B} z y x z' y' x' (a : vol A) (b : vol B) :
  rect3 (z, y, x) a -> rect3 (z', y', x') b ->
  (z <= z')%nat -> (y <= y')%nat -> (x <= x')%nat ->
  rect3 (z, y, x) (vmap2 (fun _ v => v) a b).
Proof.
  intros [Hz Ha] [Hz' Hb] Lz Ly Lx. split.
  - unfold vmap2. rewrite map2_length_le; lia.
  - unfold vmap2. eapply Forall_map2; [|exact Ha|exact Hb].
    intros p q [Hy Hp] [Hy' Hq]. split.
    + rewrite map2_length_le; lia.
    + eapply Forall_map2; [|exact Hp|exact Hq].
      intros r s Hr Hs. simpl in *. rewrite map2_length_le; lia.
Qed.

Lemma sample_valid hdr :
  valid_fixture (sample_services hdr) "root/" "ct" "pet" "L" "N" "R"
    (10, 4, 4)%nat (sample_fixture hdr).
Proof.
  unfold valid_fixture. repeat split; try reflexivity; try lia;
    try apply rect3_slab; try apply rect3_mask_slab.
  all: apply (rect3_crop 10 4 4 12 6 6); try lia.
  all: apply (rect3_vmap _ _ (slab _ _ _ _)), rect3_slab.
Qed.

Lemma generate_data_single w root_path patient log data log' :
  patient_array w root_path patient log = Ok (data, log') ->
  generate_data w root_path [patient] log = Ok (Some data, log').
Proof.
  intro H. unfold generate_data. simpl. unfold bind, ret. now rewrite H.
Qed.

(** C1 (amended): for a patient whose volumes have shape [(z, y, x)],
    stacking [[PET, CT, mask]] and moving the leading axis to position 1 gives
    an array of shape [[z; 3; y; x]]: the slice axis leads and there is no
    patient axis.  A table of that one patient returns this array. *)
Theorem generate_data_shape w root_path p0 p1 p2 p3 p4 z y x fx log :
  valid_fixture w root_path p0 p1 p2 p3 p4 (z, y, x) fx ->
  exists data log',
    patient_array w root_path [p0; p1; p2; p3; p4] log = Ok (data, log') /\
    generate_data w root_path [[p0; p1; p2; p3; p4]] log = Ok (Some data, log') /\
    shape4 data = [z; 3%nat; y; x].
Proof.
  intro Hv.
  destruct (patient_array_run w root_path p0 p1 p2 p3 p4 z y x fx log Hv)
    as (A & B & mask & _ & _ & RA & RB & Rm & Hrun).
  destruct Hv as (_ & _ & _ & _ & _ & _ & _ & _ & _ & _ & _ & _ & _ & _ & Pz & Py & _).
  eexists. eexists. split; [exact Hrun|]. split.
  - now apply generate_data_single.
  - apply moveaxis01_shape; try assumption. now apply rect3_vmap.
Qed.

Lemma generate_data_shape_witness :
  exists data log',
    patient_array (sample_services measured_header) "root/" ["ct"; "pet"; "L"; "N"; "R"]%string [] = Ok (data, log') /\
    generate_data (sample_services measured_header) "root/"
      [["ct"; "pet"; "L"; "N"; "R"]%string] [] = Ok (Some data, log') /\
    shape4 data = [10; 3; 4; 4]%nat.
Proof.
  apply (generate_data_shape (sample_services measured_header) "root/"
           "ct" "pet" "L" "N" "R" 10 4 4 (sample_fixture measured_header) []).
  apply sample_valid.
Defined.

(** C1, as stated, fails: for one patient with volumes of 10 slices of 4 x 4
    the batch has the four axes [[10; 3; 4; 4]], not [[1; 3; 10; 4; 4]]. *)
Lemma generate_data_batch_is_4d :
  exists data,
    value (generate_data (sample_services measured_header) "root/"
             [["ct"; "pet"; "L"; "N"; "R"]%string] []) = Some (Some data) /\
    shape3 (pixels (raw_pet (sample_fixture measured_header))) = (10, 4, 4)%nat /\
    shape4 data = [10; 3; 4; 4]%nat /\
    shape4 data <> [1; 3; 10; 4; 4]%nat.
Proof.
  destruct (patient_array_run (sample_services measured_header) "root/"
              "ct" "pet" "L" "N" "R" 10 4 4 (sample_fixture measured_header) []
              (sample_valid measured_header))
    as (A & B & mask & _ & _ & RA & RB & Rm & Hrun).
  assert (Hs : shape4 (moveaxis01 [A; B; vmap IZR mask]) = [10; 3; 4; 4]%nat).
  { apply moveaxis01_shape; try assumption; try lia. now apply rect3_vmap. }
  eexists. split; [|split; [|split]].
  - rewrite (generate_data_single _ _ _ _ _ _ Hrun). reflexivity.
  - apply rect3_shape; [apply rect3_slab | lia | lia].
  - exact Hs.
  - rewrite Hs. discriminate.
Qed.

(** C2: for a patient record the PET series (second entry) is read first and
    is the reference, the CT series (first entry) is read through the same
    loader, scaled by its factor, and is the one image handed to
    [sitk.Resample], with the PET image as reference grid; the PET channel
    is the normalised PET image itself. *)
Theorem pipeline_resamples_ct_onto_pet w root_path p0 p1 p2 p3 p4 z y x fx log :
  valid_fixture w root_path p0 p1 p2 p3 p4 (z, y, x) fx ->
  let path_ct := (root_path ++ p0)%string in
  let path_pet := (root_path ++ p1)%string in
  exists data evs A B mask,
    patient_array w root_path [p0; p1; p2; p3; p4] log = Ok (data, log ++ evs) /\
    filter series_or_resample evs =
      [EvReadSeries path_pet EmptyString; EvReadSeries path_ct EmptyString;
       EvResample (loaded_ct fx) (loaded_pet fx)] /\
    pixels (loaded_ct fx) =
      vmap (fun v => Rabs (v * fst (scale_factor (ds_ct fx) "SUV"))) (pixels (raw_ct fx)) /\
    norm (GetArrayFromImage (loaded_pet fx)) = Ok A /\
    norm (GetArrayFromImage (sitk_Resample w (loaded_ct fx) (loaded_pet fx))) = Ok B /\
    data = moveaxis01 [A; B; mask].
Proof.
  intros Hv path_ct path_pet.
  destruct (patient_array_run w root_path p0 p1 p2 p3 p4 z y x fx log Hv)
    as (A & B & mask & HA & HB & _ & _ & _ & Hrun).
  eexists. eexists. exists A, B, (vmap IZR mask).
  split; [exact Hrun|]. repeat split; assumption.
Qed.

Lemma pipeline_resamples_ct_onto_pet_witness :
  exists data evs A B mask,
    patient_array (sample_services measured_header) "root/"
      ["ct"; "pet"; "L"; "N"; "R"]%string [] = Ok (data, [] ++ evs) /\
    filter series_or_resample evs =
      [EvReadSeries "root/pet" EmptyString; EvReadSeries "root/ct" EmptyString;
       EvResample (loaded_ct (sample_fixture measured_header))
                  (loaded_pet (sample_fixture measured_header))] /\
    pixels (loaded_ct (sample_fixture measured_header)) =
      vmap (fun v => Rabs (v * fst (scale_factor measured_header "SUV")))
           (slab 12 6 6 (-3)) /\
    norm (GetArrayFromImage (loaded_pet (sample_fixture measured_header))) = Ok A /\
    norm (GetArrayFromImage
            (sitk_Resample (sample_services measured_header)
               (loaded_ct (sample_fixture measured_header))
               (loaded_pet (sample_fixture measured_header)))) = Ok B /\
    data = moveaxis01 [A; B; mask].
Proof.
  apply (pipeline_resamples_ct_onto_pet (sample_services measured_header) "root/"
           "ct" "pet" "L" "N" "R" 10 4 4 (sample_fixture measured_header) []).
  apply sample_valid.
Defined.

(** The flag [calc] that the loader returns is [false] exactly when the
    factor was read from the private tag, and [true] exactly when
    [calc_factor] computed it. *)
Lemma from_dicom_pet_calc_flag w path series_id type log img ds f c md log' :
  from_dicom_pet w path series_id type log = Ok ((img, ds, f, c, md), log') ->
  (c = false <-> exists v, private_tag ds type = Ok v) /\
  (c = false -> private_tag ds type = Ok f) /\
  (c = true <-> exists e, private_tag ds type = Raise e) /\
  (c = true -> f = calc_factor ds type).
Proof.
  intro H. apply from_dicom_pet_inv in H. unfold scale_factor in H.
  destruct (private_tag ds type) as [v|e]; injection H as <- <-.
  - repeat split; try discriminate; eauto.
    + intros [e He]. discriminate.
  - repeat split; try discriminate; eauto.
    + intros [v Hv]. discriminate.
Qed.




(** The flag [calc] on two headers: with the vendor factor 2 in the private
    tag the loader returns [false]; without the tag, on a header where no
    fallback constant is needed, it returns [true]. *)
Lemma from_dicom_pet_flag_polarity :
  (private_tag vendor_header "SUV" = Ok 2 /\
   exists img,
     value (from_dicom_pet (sample_services vendor_header) "root/pet" None "SUV" [])
     = Some (img, vendor_header, 2, false, [])) /\
  (private_tag measured_header "SUV" = Raise KeyError /\
   (exists p, decay_try measured_header = Ok p) /\
   exists img,
     value (from_dicom_pet (sample_services measured_header) "root/pet" None "SUV" [])
     = Some (img, measured_header, calc_factor measured_header "SUV", true, [])).
Proof.
  split; [split; [reflexivity|] | split; [reflexivity | split]].
  - eexists.
    rewrite (from_dicom_pet_run (sample_services vendor_header) "root/pet" "SUV" []
               _ _ _ vendor_header eq_refl eq_refl eq_refl).
    reflexivity.
  - eexists. apply (decay_try_measured measured_header 75 ten nine 6588 420000000).
    + apply sample_measured.
    + lra.
  - eexists.
    rewrite (from_dicom_pet_run (sample_services measured_header) "root/pet" "SUV" []
               _ _ _ measured_header eq_refl eq_refl eq_refl).
    reflexivity.
Qed.

Lemma sample_masks_perm :
  Permutation ["root/L.tif"; "root/N.tif"; "root/R.tif"]%string
              ["root/R.tif"; "root/L.tif"; "root/N.tif"]%string.
Proof.
  apply Permutation_sym.
  apply (Permutation_cons_app ["root/L.tif"; "root/N.tif"]%string []).
  rewrite app_nil_r. apply Permutation_refl.
Qed.

Lemma integer_mask_slab z y x p : integer_mask (mask_slab z y x p).
Proof.
  unfold integer_mask, all_voxels, mask_slab.
  apply Forall_map, Forall_forall. intros k _.
  apply Forall_forall. intros r Hr. apply repeat_spec in Hr. subst.
  apply Forall_forall. intros v Hv. apply repeat_spec in Hv. subst.
  destruct (p k); [exists 1%Z | exists 0%Z]; split; try reflexivity; lia.
Qed.

Lemma get_tiff_masks_order_independent_witness :
  value (get_tiff_masks_as_numpy (sample_services measured_header)
           ["root/L.tif"; "root/N.tif"; "root/R.tif"]%string (10, 4, 4)%nat 0.5 []) =
  value (get_tiff_masks_as_numpy (sample_services measured_header)
           ["root/R.tif"; "root/L.tif"; "root/N.tif"]%string (10, 4, 4)%nat 0.5 []).
Proof.
  apply (get_tiff_masks_order_independent (sample_services measured_header)).
  - intros path img [<- | [<- | [<- | []]]] [= <-]; apply integer_mask_slab.
  - simpl. lia.
  - apply sample_masks_perm.
Defined.

(** C9, as stated, fails in binary64: for three files of one voxel holding
    0.17, 0.28 and 0.05 and [epsilon = 0.5], the order a, b, c sums to
    0.5000000000000001 and gives the mask 1, the order c, a, b sums to 0.5
    and gives the mask 0. *)
Lemma get_tiff_masks_f64_order :
  Permutation ["a.tif"; "b.tif"; "c.tif"]%string ["c.tif"; "a.tif"; "b.tif"]%string /\
  get_tiff_masks_f64 three_files ["a.tif"; "b.tif"; "c.tif"]%string (1, 1, 1)%nat 0.5%float
    = Ok [[[1%Z]]] /\
  get_tiff_masks_f64 three_files ["c.tif"; "a.tif"; "b.tif"]%string (1, 1, 1)%nat 0.5%float
    = Ok [[[0%Z]]].
Proof.
  split; [|split; vm_compute; reflexivity].
  apply Permutation_sym.
  apply (Permutation_cons_app ["a.tif"; "b.tif"]%string []).
  rewrite app_nil_r. apply Permutation_refl.
Qed.

(** The masks of the sample services do add up. *)
Lemma get_tiff_masks_sample_value :
  exists mask,
    value (get_tiff_masks_as_numpy (sample_services measured_header)
             ["root/L.tif"; "root/N.tif"; "root/R.tif"]%string (10, 4, 4)%nat 0.5 [])
    = Some mask /\ rect3 (10, 4, 4)%nat mask.
Proof.
  assert (Hms : Forall2 (fun path m => io_imread (sample_services measured_header) path = Ok m
                                       /\ rect3 (10, 4, 4)%nat m)
                  ["root/L.tif"; "root/N.tif"; "root/R.tif"]%string
                  [mask_slab 10 4 4 (fun k => Nat.ltb k 3); mask_slab 10 4 4 (Nat.eqb 4);
                   mask_slab 10 4 4 (Nat.ltb 7)]).
  { repeat (apply Forall2_cons; [split; [reflexivity | apply rect3_mask_slab]|]).
    apply Forall2_nil. }
  eexists. unfold get_tiff_masks_as_numpy, bind, ret.
  rewrite (accumulate_masks_run _ _ _ _ Hms). split; [reflexivity|].
  apply rect3_vmap, fold_masks_rect; [|apply rect3_zeros].
  repeat (apply Forall_cons; [apply rect3_mask_slab|]). apply Forall_nil.
Qed.

(** * Further properties *)

(** ** The scale factor *)

(** X1: a header whose weight cannot be read gets the factor of the same
    header with a weight of 75 kg, in either mode. *)
Theorem calc_factor_weight_default ds type :
  readable (PatientWeight ds) = false ->
  calc_factor ds type = calc_factor (set_weight (Present 75) ds) type.
Proof.
  intro H. unfold calc_factor. rewrite decay_block_set_weight.
  assert (Hw : weight_g ds = weight_g (set_weight (Present 75) ds)).
  { unfold weight_g. simpl. destruct (PatientWeight ds); simpl in *;
      try discriminate; lra. }
  now rewrite Hw.
Qed.

Lemma calc_factor_weight_default_witness :
  calc_factor (sample_header Malformed ten (Present 6588) (Present 420000000) []) "SUV" =
  calc_factor (set_weight (Present 75)
                 (sample_header Malformed ten (Present 6588) (Present 420000000) [])) "SUV".
Proof.
  apply (calc_factor_weight_default
           (sample_header Malformed ten (Present 6588) (Present 420000000) []) "SUV").
  reflexivity.
Defined.

Lemma timedelta_seconds_range t1 t2 : (0 <= timedelta_seconds t1 t2 < 86400)%Z.
Proof. unfold timedelta_seconds. apply Z.mod_pos_bound. lia. Qed.

(** X2: when the scan precedes the injection on the clock, the waiting time
    is counted across midnight: one day is added to the (negative)
    difference, rounded down to whole seconds. *)
Theorem timedelta_seconds_across_midnight scan inj :
  time_wf scan -> time_wf inj ->
  (micros_of_day scan < micros_of_day inj)%Z ->
  (timedelta_seconds scan inj
   = 86400 + (micros_of_day scan - micros_of_day inj) / 1000000)%Z /\
  (microsecond scan = microsecond inj ->
   timedelta_seconds scan inj
   = 86400 - (seconds_of_day inj - seconds_of_day scan))%Z.
Proof.
  intros Hs Hi Hlt. unfold timedelta_seconds.
  set (d := (micros_of_day scan - micros_of_day inj)%Z).
  assert (Hd : (- (86400 * 1000000) < d < 0)%Z).
  { unfold d, micros_of_day, seconds_of_day, time_wf in *. lia. }
  assert (Hq : (-86400 <= d / 1000000 < 0)%Z).
  { split; [apply Z.div_le_lower_bound; lia | apply Z.div_lt_upper_bound; lia]. }
  assert (H1 : ((d / 1000000) mod 86400 = 86400 + d / 1000000)%Z).
  { symmetry. apply Z.mod_unique with (q := (-1)%Z); lia. }
  split; [exact H1|].
  intro Hm. rewrite H1.
  assert (Hd' : (d = (seconds_of_day scan - seconds_of_day inj) * 1000000)%Z).
  { unfold d, micros_of_day. lia. }
  rewrite Hd', Z.div_mul by lia. lia.
Qed.

Lemma timedelta_seconds_across_midnight_witness :
  timedelta_seconds (mkTime 0 10 0 0) (mkTime 23 30 0 0) = 2400%Z.
Proof.
  apply (timedelta_seconds_across_midnight (mkTime 0 10 0 0) (mkTime 23 30 0 0));
    unfold time_wf; simpl; try lia; reflexivity.
Defined.

Lemma exp_nonpos_le_1 r : r <= 0 -> exp r <= 1.
Proof.
  intros [H | ->].
  - left. rewrite <- exp_0. now apply exp_increasing.
  - right. apply exp_0.
Qed.

Lemma fallback_a_lt_1 : fallback_a < 1.
Proof.
  unfold fallback_a. rewrite <- exp_0. apply exp_increasing.
  pose proof ln2_pos. 
  assert (0 < ln 2 * (1.75 * 3600) / 6588).
  { apply Rdiv_lt_0_compat; [|lra]. apply Rmult_lt_0_compat; lra. }
  replace (- ln 2 * (1.75 * 3600) / 6588) with (- (ln 2 * (1.75 * 3600) / 6588))
    by (unfold Rdiv; ring).
  lra.
Qed.

(** X3: in the real-number model of the floats, unless the header holds a
    negative half-life the decay factor is at most 1, so the factor
    returned in ACT mode, [1 / a], is at least 1. *)
Theorem decay_factor_at_most_1 ds type :
  (forall it rest hl,
     RadiopharmaceuticalInformationSequence ds = Some (it :: rest) ->
     RadionuclideHalfLife it = Present hl -> 0 <= hl) ->
  fst (decay_block ds) <= 1 /\
  (String.eqb type "SUV" = false -> 1 <= calc_factor ds type).
Proof.
  intro Hhl.
  assert (Ha : fst (decay_block ds) <= 1).
  { pose proof fallback_a_lt_1 as Hf.
    unfold decay_block, decay_try.
    destruct (AcquisitionTime ds) as [| |scan]; simpl; try lra.
    destruct (RadiopharmaceuticalInformationSequence ds) as [[|it rest]|] eqn:Hq;
      simpl; try lra.
    destruct (RadiopharmaceuticalStartTime it) as [| |inj]; simpl; try lra.
    destruct (RadionuclideHalfLife it) as [| |hl] eqn:Hh; simpl; try lra.
    destruct (RadionuclideTotalDose it); simpl; try lra.
    unfold py_div. destruct (Req_dec_T hl 0) as [|Hnz]; simpl; try lra.
    specialize (Hhl it rest hl eq_refl Hh).
    apply exp_nonpos_le_1.
    pose proof (timedelta_seconds_range scan inj) as [Hr _].
    apply IZR_le in Hr. pose proof ln2_pos.
    assert (0 <= IZR (timedelta_seconds scan inj) / hl).
    { apply Rmult_le_pos; [exact Hr|]. left. apply Rinv_0_lt_compat. lra. }
    nra. }
  split; [exact Ha|].
  intro Ht. rewrite calc_factor_ACT by exact Ht.
  pose proof (decay_block_a_pos ds) as Hp.
  apply Rmult_le_reg_r with (fst (decay_block ds)); [exact Hp|].
  unfold Rdiv. rewrite Rmult_assoc, Rinv_l by lra. lra.
Qed.

Lemma decay_factor_at_most_1_witness :
  1 <= calc_factor measured_header "ACT".
Proof.
  apply (decay_factor_at_most_1 measured_header "ACT"); [|reflexivity].
  intros it rest hl [= <-]. simpl. intros [= <-]. lra.
Defined.

(** X4: every mode string other than ["SUV"] is treated as ["ACT"]: the
    same private tag is looked up and the same factor is computed. *)
Theorem scale_factor_other_modes ds type :
  String.eqb type "SUV" = false ->
  scale_factor ds type = scale_factor ds "ACT" /\
  calc_factor ds type = 1 / fst (decay_block ds).
Proof.
  intro Ht. split.
  - unfold scale_factor, private_tag, calc_factor. rewrite Ht. reflexivity.
  - now apply calc_factor_ACT.
Qed.

Lemma scale_factor_other_modes_witness :
  scale_factor vendor_header "suv" = scale_factor vendor_header "ACT".
Proof.
  apply (scale_factor_other_modes vendor_header "suv"). reflexivity.
Defined.

(** X5: the flag is [false] exactly when the dictionary of the header has
    the tag of the mode with a non-empty ["Value"] list, and the factor is
    then the first entry of that list; a tag without ["Value"] or with an
    empty list counts as absent. *)
Theorem scale_factor_flag_iff ds type :
  snd (scale_factor ds type) = false <->
  exists e v vs,
    dict_get (to_json_dict ds)
      (if String.eqb type "SUV" then "70531000" else "70531009") = Ok e /\
    Value e = Some (v :: vs) /\
    fst (scale_factor ds type) = v.
Proof.
  unfold scale_factor, private_tag.
  destruct (dict_get (to_json_dict ds) _) as [e|x]; simpl.
  - destruct (Value e) as [[|v vs]|] eqn:Hv; simpl; split; try discriminate.
    + intros (e' & v0 & vs0 & [= <-] & H & _). congruence.
    + intros _. exists e, v, vs. repeat split. exact Hv.
    + reflexivity.
    + intros (e' & v0 & vs0 & [= <-] & H & _). congruence.
  - split; [discriminate|]. intros (e & v & vs & H & _). discriminate.
Qed.

Lemma scale_factor_flag_iff_witness :
  snd (scale_factor vendor_header "SUV") = false <->
  exists e v vs,
    dict_get (to_json_dict vendor_header) "70531000" = Ok e /\
    Value e = Some (v :: vs) /\
    fst (scale_factor vendor_header "SUV") = v.
Proof.
  apply (scale_factor_flag_iff vendor_header "SUV").
Defined.

(** ** Normalisation *)

Lemma vmap_vmap {A B C} (f : A -> B) (g : B -> C) (x : vol A) :
  vmap g (vmap f x) = vmap (fun a => g (f a)) x.
Proof.
  unfold vmap. rewrite map_map. apply map_ext. intro p.
  rewrite map_map. apply map_ext. intro r. apply map_map.
Qed.

Lemma vmap_ext_in {A B} (f g : A -> B) (x : vol A) :
  (forall a, In a (ravel x) -> f a = g a) -> vmap f x = vmap g x.
Proof.
  intro H. unfold vmap. apply map_ext_in. intros p Hp.
  apply map_ext_in. intros r Hr. apply map_ext_in. intros a Ha.
  apply H. unfold ravel. apply in_concat. exists r. split; [|exact Ha].
  apply in_concat. exists p. now split.
Qed.

Lemma all_voxels_ravel {A} (P : A -> Prop) (x : vol A) :
  all_voxels P x <-> Forall P (ravel x).
Proof.
  unfold all_voxels, ravel. rewrite !Forall_concat. reflexivity.
Qed.

Lemma min_lt_max (x : vol R) c l :
  non_constant x -> ravel x = c :: l -> fold_left Rmin l c < fold_left Rmax l c.
Proof.
  intros (u & v & Hu & Hv & Huv) Hl. rewrite Hl in Hu, Hv.
  pose proof (fold_min_lower l c u Hu). pose proof (fold_min_lower l c v Hv).
  pose proof (fold_max_upper l c u Hu). pose proof (fold_max_upper l c v Hv).
  destruct (Rtotal_order u v) as [?|[?|?]]; lra.
Qed.

Lemma norm_value (x : vol R) c l :
  ravel x = c :: l ->
  norm x = Ok (vmap (fun v => (v - fold_left Rmin l c)
                              / (fold_left Rmax l c - fold_left Rmin l c)) x).
Proof. intro Hl. unfold norm. rewrite Hl. reflexivity. Qed.

(** [norm] maps into the unit interval and keeps the shape. *)
Lemma norm_in_unit_interval (x : vol R) sh :
  non_constant x -> rect3 sh x ->
  exists y, norm x = Ok y /\ all_voxels (fun v => 0 <= v <= 1) y /\ rect3 sh y.
Proof.
  intros Hnc Hsh.
  destruct (ravel x) as [|c l] eqn:Hl.
  { destruct Hnc as (u & v & Hu & _). rewrite Hl in Hu. destruct Hu. }
  pose proof (min_lt_max x c l Hnc Hl) as Hlt.
  eexists. split; [apply (norm_value x c l Hl)|]. split.
  - apply all_voxels_ravel. rewrite ravel_vmap, Hl. apply Forall_map, Forall_forall.
    intros v Hv.
    pose proof (fold_min_lower l c v Hv). pose proof (fold_max_upper l c v Hv).
    split.
    + apply Rmult_le_pos; [lra|]. left. apply Rinv_0_lt_compat. lra.
    + apply Rmult_le_reg_r with (fold_left Rmax l c - fold_left Rmin l c); [lra|].
      unfold Rdiv. rewrite Rmult_assoc, Rinv_l by lra. lra.
  - now apply rect3_vmap.
Qed.

(** X6: [norm] of an array with two different elements has every element
    in the interval from 0 to 1 and the shape of its argument. *)
Theorem norm_range (x : vol R) sh :
  non_constant x -> rect3 sh x ->
  exists y, norm x = Ok y /\ all_voxels (fun v => 0 <= v <= 1) y /\ rect3 sh y.
Proof. apply norm_in_unit_interval. Qed.

Lemma ramp_non_constant : non_constant ramp.
Proof. exists 0, 2. simpl. repeat split; auto; lra. Qed.

Lemma ramp_rect : rect3 (1, 2, 2)%nat ramp.
Proof. split; [reflexivity|]. repeat constructor. Qed.

Lemma norm_range_witness :
  exists y, norm ramp = Ok y /\ all_voxels (fun v => 0 <= v <= 1) y
            /\ rect3 (1, 2, 2)%nat y.
Proof.
  apply (norm_range ramp (1, 2, 2)%nat); [apply ramp_non_constant | apply ramp_rect].
Defined.

(** Scale and offset cancel in [norm]. *)
Lemma norm_affine (a b : R) (x : vol R) :
  0 < a -> non_constant x ->
  norm (vmap (fun v => a * v + b) x) = norm x.
Proof.
  intros Ha Hnc.
  destruct (ravel x) as [|c l] eqn:Hl.
  { destruct Hnc as (u & v & Hu & _). rewrite Hl in Hu. destruct Hu. }
  pose proof (min_lt_max x c l Hnc Hl) as Hlt.
  assert (Hg : forall s t, s <= t -> a * s + b <= a * t + b).
  { intros s t Hst. apply Rplus_le_compat_r, Rmult_le_compat_l; [left; exact Ha | exact Hst]. }
  set (g := fun v => a * v + b) in *.
  rewrite (norm_value x c l Hl).
  rewrite (norm_value (vmap g x) (g c) (map g l))
    by (rewrite ravel_vmap, Hl; reflexivity).
  rewrite (fold_min_map g Hg), (fold_max_map g Hg), vmap_vmap.
  f_equal. apply vmap_ext_in. intros v _. unfold g. field.
  split; [lra|].
  replace (a * fold_left Rmax l c + b - (a * fold_left Rmin l c + b))
    with (a * (fold_left Rmax l c - fold_left Rmin l c)) by ring.
  apply Rmult_integral_contrapositive_currified; lra.
Qed.

(** X7: [norm] does not see a change of scale and offset: for [a > 0],
    [norm (a * x + b) = norm x] on an array with two different elements. *)
Theorem norm_affine_invariant (a b : R) (x : vol R) :
  0 < a -> non_constant x ->
  norm (vmap (fun v => a * v + b) x) = norm x.
Proof. apply norm_affine. Qed.

Lemma norm_affine_invariant_witness :
  norm (vmap (fun v => 3 * v + 1) ramp) = norm ramp.
Proof.
  apply (norm_affine_invariant 3 1 ramp); [lra | apply ramp_non_constant].
Defined.

Lemma norm_scale_abs (img : image) (f : R) :
  f <> 0 -> non_constant (vmap Rabs (pixels img)) ->
  norm (GetArrayFromImage (scale_abs img f)) = norm (vmap Rabs (pixels img)).
Proof.
  intros Hf Hnc. unfold GetArrayFromImage, scale_abs. simpl.
  rewrite <- (norm_affine (Rabs f) 0 (vmap Rabs (pixels img)))
    by (try assumption; now apply Rabs_pos_lt).
  rewrite vmap_vmap. f_equal. apply vmap_ext_in. intros v _.
  rewrite Rabs_mult. ring.
Qed.

(** X8: the normalised PET array that [get_reg_numpy_B2A] returns does not
    depend on the scale factor: any two factors other than zero give the
    same array. *)
Theorem norm_scale_abs_factor_free (img : image) (f1 f2 : R) :
  f1 <> 0 -> f2 <> 0 -> non_constant (vmap Rabs (pixels img)) ->
  norm (GetArrayFromImage (scale_abs img f1)) =
  norm (GetArrayFromImage (scale_abs img f2)).
Proof.
  intros H1 H2 Hnc. now rewrite !norm_scale_abs.
Qed.

Lemma ramp_abs_non_constant : non_constant (vmap Rabs ramp).
Proof.
  exists (Rabs 0), (Rabs 2). simpl. repeat split; auto.
  rewrite Rabs_R0, Rabs_pos_eq; lra.
Qed.

Lemma norm_scale_abs_factor_free_witness :
  norm (GetArrayFromImage (scale_abs (mkImage unit_grid ramp) 2)) =
  norm (GetArrayFromImage (scale_abs (mkImage unit_grid ramp) 0.5)).
Proof.
  apply (norm_scale_abs_factor_free (mkImage unit_grid ramp) 2 0.5);
    [lra | lra | apply ramp_abs_non_constant].
Defined.

(** ** The mask assembler *)

Lemma bcast_inv {A} (P : A -> Prop) n (l l' : list A) :
  bcast n l = Ok l' -> length l' = n /\ (Forall P l -> Forall P l').
Proof.
  unfold bcast. destruct (Nat.eqb (length l) n) eqn:Hn.
  - intros [= <-]. apply Nat.eqb_eq in Hn. now split.
  - destruct l as [|a [|b l]]; try discriminate. intros [= <-]. split.
    + apply repeat_length.
    + intro H. inversion H; subst. apply Forall_forall. intros x Hx.
      apply repeat_spec in Hx. now subst.
Qed.

Lemma mapM_inv {A B} (f : A -> result B) (P : A -> Prop) (Q : B -> Prop) l l' :
  (forall a b, P a -> f a = Ok b -> Q b) ->
  Forall P l -> mapM f l = Ok l' -> Forall Q l'.
Proof.
  intros Hf Hl. revert l'. induction Hl as [|a l Pa _ IH]; intros l'; simpl.
  - intros [= <-]. constructor.
  - destruct (f a) as [b|] eqn:Hb; simpl; [|discriminate].
    destruct (mapM f l) as [bs|]; simpl; [|discriminate].
    intros [= <-]. constructor; [now apply (Hf a) | now apply IH].
Qed.

(** What [broadcast_to] returns has the target shape, and no voxel that the
    operand does not have. *)
Lemma broadcast_to_inv {A} (P : A -> Prop) sh (img b : vol A) :
  broadcast_to sh img = Ok b -> rect3 sh b /\ (all_voxels P img -> all_voxels P b).
Proof.
  destruct sh as [[z y] x]. unfold broadcast_to.
  destruct (mapM _ img) as [planes|] eqn:Hm; simpl; [|discriminate].
  intro Hb.
  assert (Hshape : Forall (fun p : list (list A) =>
                     length p = y /\ Forall (fun r => length r = x) p) planes).
  { eapply (mapM_inv _ (fun _ => True)); [| apply Forall_forall; intros; exact I | exact Hm].
    intros p q _ Hq. simpl in Hq.
    destruct (mapM (bcast x) p) as [rows|] eqn:Hr; simpl in Hq; [|discriminate].
    assert (Hrows : Forall (fun r : list A => length r = x) rows).
    { eapply (mapM_inv _ (fun _ => True)); [| apply Forall_forall; intros; exact I | exact Hr].
      intros r r' _ Hr'. now apply (bcast_inv (fun _ => True)) in Hr'. }
    apply (bcast_inv (fun r : list A => length r = x)) in Hq. destruct Hq as [Hy Hq].
    split; [exact Hy | now apply Hq]. }
  split.
  - apply (bcast_inv (fun p : list (list A) =>
             length p = y /\ Forall (fun r => length r = x) p)) in Hb.
    destruct Hb as [Hz Hb]. split; [exact Hz | now apply Hb].
  - intro Himg. unfold all_voxels in *.
    apply (bcast_inv (Forall (Forall P))) in Hb. apply Hb.
    eapply mapM_inv; [| exact Himg | exact Hm].
    intros p q Hp Hq. simpl in Hq.
    destruct (mapM (bcast x) p) as [rows|] eqn:Hr; simpl in Hq; [|discriminate].
    apply (bcast_inv (Forall P)) in Hq. apply Hq.
    eapply mapM_inv; [| exact Hp | exact Hr].
    intros r r' Pr Hr'. apply (bcast_inv P) in Hr'. now apply Hr'.
Qed.

Lemma threshold_binary eps (m : vol R) :
  all_voxels (fun v => v = 0%Z \/ v = 1%Z) (threshold eps m).
Proof.
  unfold threshold, vmap, all_voxels.
  apply Forall_map, Forall_forall. intros p _.
  apply Forall_map, Forall_forall. intros r _.
  apply Forall_map, Forall_forall. intros v _.
  destruct (Rlt_dec eps v); auto.
Qed.

Lemma accumulate_pure_rect w sh paths : forall mask m,
  rect3 sh mask -> accumulate_pure w sh paths mask = Some m -> rect3 sh m.
Proof.
  induction paths as [|p rest IH]; intros mask m Hmask; simpl.
  - now intros [= <-].
  - destruct (io_imread w p) as [img|]; [|discriminate].
    destruct (broadcast_to sh (flip0 img)) as [b|] eqn:Hb; [|discriminate].
    apply IH. apply rect3_vmap2; [exact Hmask|].
    now apply (broadcast_to_inv (fun _ => True)) in Hb.
Qed.

(** X9: whenever [get_tiff_masks_as_numpy] returns, the mask has the shape
    asked for and every voxel is 0 or 1, whatever the files hold and
    whatever [epsilon] is. *)
Theorem get_tiff_masks_binary w paths mask_shape epsilon log m :
  value (get_tiff_masks_as_numpy w paths mask_shape epsilon log) = Some m ->
  rect3 mask_shape m /\ all_voxels (fun v => v = 0%Z \/ v = 1%Z) m.
Proof.
  unfold get_tiff_masks_as_numpy, bind, ret.
  pose proof (accumulate_masks_value w mask_shape paths (zeros mask_shape) log) as Hv.
  destruct (accumulate_masks w mask_shape paths (zeros mask_shape) log) as [[acc l]|];
    [|discriminate].
  simpl in Hv. simpl. intros [= <-]. split.
  - apply rect3_vmap.
    apply (accumulate_pure_rect w mask_shape paths (zeros mask_shape));
      [apply rect3_zeros | now symmetry].
  - apply threshold_binary.
Qed.

Lemma get_tiff_masks_binary_witness :
  exists m,
    value (get_tiff_masks_as_numpy (sample_services measured_header)
             ["root/L.tif"; "root/N.tif"; "root/R.tif"]%string (10, 4, 4)%nat 0.5 [])
    = Some m /\
    rect3 (10, 4, 4)%nat m /\ all_voxels (fun v => v = 0%Z \/ v = 1%Z) m.
Proof.
  destruct get_tiff_masks_sample_value as (m & Hm & _).
  exists m. split; [exact Hm|].
  apply (get_tiff_masks_binary (sample_services measured_header)
           ["root/L.tif"; "root/N.tif"; "root/R.tif"]%string (10, 4, 4)%nat 0.5 [] m Hm).
Defined.

Lemma map2_repeat_l {A B} (f : A -> B -> B) (a : A) (l : list B) :
  Forall (fun b => f a b = b) l -> map2 f (repeat a (length l)) l = l.
Proof.
  induction 1 as [|b l Hb _ IH]; simpl; [reflexivity|]. now rewrite Hb, IH.
Qed.

Lemma zeros_plus sh (b : vol R) : rect3 sh b -> vmap2 Rplus (zeros sh) b = b.
Proof.
  destruct sh as [[z y] x]. intros [Hz Hb]. unfold vmap2, zeros.
  rewrite <- Hz. apply map2_repeat_l.
  eapply Forall_impl; [|exact Hb]. intros p [Hy Hp].
  rewrite <- Hy. apply map2_repeat_l.
  eapply Forall_impl; [|exact Hp]. intros r Hr.
  rewrite <- Hr. apply map2_repeat_l.
  apply Forall_forall. intros v _. ring.
Qed.

(** X10: with a single path whose file has the shape asked for, the mask is
    that file flipped along the slice axis and thresholded at [epsilon]. *)
Theorem get_tiff_masks_single w path img mask_shape epsilon log :
  io_imread w path = Ok img -> rect3 mask_shape img ->
  value (get_tiff_masks_as_numpy w [path] mask_shape epsilon log)
  = Some (threshold epsilon (flip0 img)).
Proof.
  intros Hr Himg. unfold get_tiff_masks_as_numpy, bind, ret.
  rewrite (accumulate_masks_run w mask_shape [path] [img]
             ltac:(apply Forall2_cons; [now split | apply Forall2_nil])).
  simpl. rewrite zeros_plus by now apply rect3_flip0. reflexivity.
Qed.

Lemma get_tiff_masks_single_witness :
  value (get_tiff_masks_as_numpy (sample_services measured_header)
           ["root/L.tif"%string] (10, 4, 4)%nat 0.5 [])
  = Some (threshold 0.5 (flip0 (mask_slab 10 4 4 (fun k => Nat.ltb k 3)))).
Proof.
  apply (get_tiff_masks_single (sample_services measured_header) "root/L.tif");
    [reflexivity | apply rect3_mask_slab].
Defined.

Lemma map_map2_Forall {A B C A' B' C'} (f : A -> B -> C) (k : A' -> B' -> C')
    (ha : A -> A') (hb : B -> B') (h : C -> C') (P : A -> Prop) (Q : B -> Prop) la lb :
  (forall a b, P a -> Q b -> h (f a b) = k (ha a) (hb b)) ->
  Forall P la -> Forall Q lb ->
  map h (map2 f la lb) = map2 k (map ha la) (map hb lb).
Proof.
  intros H Hla. revert lb. induction Hla as [|a la Pa _ IH]; intros lb Hlb; simpl.
  - reflexivity.
  - destruct Hlb as [|b lb Qb Hlb]; simpl; [reflexivity|].
    now rewrite H, IH.
Qed.

(** Thresholding a sum is the union of the thresholded summands, when the
    sum so far is 0 or at least 1 in every voxel and the summand is 0 or 1. *)
Lemma threshold_plus eps (acc b : vol R) :
  0 <= eps < 1 ->
  all_voxels (fun v => v = 0 \/ 1 <= v) acc -> binary b ->
  threshold eps (vmap2 Rplus acc b) = union (threshold eps acc) (threshold eps b).
Proof.
  intros He Hacc Hb. unfold threshold, union, vmap, vmap2.
  eapply map_map2_Forall; [|exact Hacc|exact Hb]. intros p q Hp Hq.
  eapply map_map2_Forall; [|exact Hp|exact Hq]. intros r s Hr Hs.
  eapply map_map2_Forall; [|exact Hr|exact Hs]. intros u v Hu Hv. simpl in *.
  destruct (Rlt_dec eps (u + v)), (Rlt_dec eps u), (Rlt_dec eps v);
    try reflexivity; exfalso; lra.
Qed.

Lemma plus_keeps_counts (acc b : vol R) :
  all_voxels (fun v => v = 0 \/ 1 <= v) acc -> binary b ->
  all_voxels (fun v => v = 0 \/ 1 <= v) (vmap2 Rplus acc b).
Proof.
  intros Hacc Hb. unfold all_voxels, vmap2.
  eapply Forall_map2; [|exact Hacc|exact Hb]. intros p q Hp Hq.
  eapply Forall_map2; [|exact Hp|exact Hq]. intros r s Hr Hs.
  eapply Forall_map2; [|exact Hr|exact Hs]. intros u v Hu Hv. simpl in *. lra.
Qed.

Lemma binary_flip0 (m : vol R) : binary m -> binary (flip0 m).
Proof. unfold binary, all_voxels, flip0. apply Forall_rev. Qed.

Lemma threshold_fold eps ms :
  0 <= eps < 1 -> Forall binary ms ->
  forall acc, all_voxels (fun v => v = 0 \/ 1 <= v) acc ->
  threshold eps (fold_left (fun a m => vmap2 Rplus a (flip0 m)) ms acc) =
  fold_left (fun u m => union u (threshold eps (flip0 m))) ms (threshold eps acc).
Proof.
  intros He Hms. induction Hms as [|m ms Hm _ IH]; intros acc Hacc; simpl.
  - reflexivity.
  - rewrite IH by (apply plus_keeps_counts; [exact Hacc | now apply binary_flip0]).
    now rewrite threshold_plus by (try assumption; now apply binary_flip0).
Qed.

Lemma threshold_zeros eps sh : 0 <= eps -> threshold eps (zeros sh) = zero_mask sh.
Proof.
  intro He. destruct sh as [[z y] x]. unfold threshold, vmap, zeros, zero_mask.
  rewrite !map_repeat. simpl.
  destruct (Rlt_dec eps 0); [exfalso; lra | reflexivity].
Qed.

Lemma zeros_counts sh : all_voxels (fun v => v = 0 \/ 1 <= v) (zeros sh).
Proof.
  destruct sh as [[z y] x]. unfold all_voxels, zeros.
  apply Forall_forall. intros p Hp. apply repeat_spec in Hp. subst.
  apply Forall_forall. intros r Hr. apply repeat_spec in Hr. subst.
  apply Forall_forall. intros v Hv. apply repeat_spec in Hv. now left.
Qed.

(** X11: for mask files of the shape asked for whose voxels are 0 or 1, and
    [0 <= epsilon < 1], the mask returned is the voxelwise union of the
    flipped masks: overlapping masks are not counted twice. *)
Theorem get_tiff_masks_union w paths ms mask_shape epsilon log :
  0 <= epsilon < 1 ->
  Forall2 (fun path m => io_imread w path = Ok m /\ rect3 mask_shape m /\ binary m)
    paths ms ->
  value (get_tiff_masks_as_numpy w paths mask_shape epsilon log)
  = Some (fold_left (fun u m => union u (threshold epsilon (flip0 m))) ms
            (zero_mask mask_shape)).
Proof.
  intros He Hms. unfold get_tiff_masks_as_numpy, bind, ret.
  rewrite (accumulate_masks_run w mask_shape paths ms).
  - simpl. rewrite threshold_fold.
    + now rewrite threshold_zeros by lra.
    + exact He.
    + clear -Hms. induction Hms as [|p m ps ms (_ & _ & Hb) _ IH]; constructor; assumption.
    + apply zeros_counts.
  - eapply Forall2_impl; [|exact Hms]. intros p m (H1 & H2 & _). now split.
Qed.

Lemma binary_mask_slab z y x p : binary (mask_slab z y x p).
Proof.
  unfold binary, all_voxels, mask_slab.
  apply Forall_map, Forall_forall. intros k _.
  apply Forall_forall. intros r Hr. apply repeat_spec in Hr. subst.
  apply Forall_forall. intros v Hv. apply repeat_spec in Hv. subst.
  destruct (p k); auto.
Qed.

Lemma get_tiff_masks_union_witness :
  value (get_tiff_masks_as_numpy (sample_services measured_header)
           ["root/L.tif"; "root/R.tif"]%string (10, 4, 4)%nat 0.5 [])
  = Some (fold_left (fun u m => union u (threshold 0.5 (flip0 m)))
            [mask_slab 10 4 4 (fun k => Nat.ltb k 3); mask_slab 10 4 4 (Nat.ltb 7)]
            (zero_mask (10, 4, 4)%nat)).
Proof.
  apply (get_tiff_masks_union (sample_services measured_header)); [lra|].
  repeat (apply Forall2_cons;
          [split; [reflexivity | split; [apply rect3_mask_slab | apply binary_mask_slab]]|]).
  apply Forall2_nil.
Defined.

(** ** The dataset builder *)

Lemma appends_ret {A} (a : A) : appends (ret a).
Proof. exists (Ok (a, [])). intro log. unfold ret. now rewrite app_nil_r. Qed.

Lemma appends_lift {A} (r : result A) : appends (lift r).
Proof.
  destruct r as [a|e].
  - exists (Ok (a, [])). intro log. simpl. now rewrite app_nil_r.
  - exists (Raise e). reflexivity.
Qed.

Lemma appends_emit e : appends (emit e).
Proof. exists (Ok (tt, [e])). reflexivity. Qed.

Lemma appends_bind {A B} (c : M A) (k : A -> M B) :
  appends c -> (forall a, appends (k a)) -> appends (bind c k).
Proof.
  intros [[[a evs]|e] Hc] Hk.
  - destruct (Hk a) as [[[b evs']|e'] Hka].
    + exists (Ok (b, evs ++ evs')). intro log. unfold bind.
      rewrite Hc, Hka. now rewrite app_assoc.
    + exists (Raise e'). intro log. unfold bind. now rewrite Hc, Hka.
  - exists (Raise e). intro log. unfold bind. now rewrite Hc.
Qed.

Lemma appends_value {A} (c : M A) log log' : appends c -> value (c log) = value (c log').
Proof. intros [[[a evs]|e] Hc]; now rewrite !Hc. Qed.

Ltac appends_step :=
  first [ apply appends_ret | apply appends_lift | apply appends_emit
        | apply appends_bind; [|intros] ].

Section Appends.

Variable w : services.

Lemma appends_from_dicom_pet path series_id type :
  appends (from_dicom_pet w path series_id type).
Proof.
  unfold from_dicom_pet, read_image. repeat appends_step.
  destruct (scale_factor _ type). apply appends_ret.
Qed.

Lemma appends_get_reg_numpy_B2A path_A path_B normalize :
  appends (get_reg_numpy_B2A w path_A path_B normalize).
Proof.
  unfold get_reg_numpy_B2A.
  apply appends_bind; [apply appends_from_dicom_pet|]. intros [[[[img_A ?] ?] ?] ?].
  apply appends_bind; [apply appends_from_dicom_pet|]. intros [[[[img_B ?] ?] ?] ?].
  apply appends_bind; [unfold resample_pet; repeat appends_step|]. intros [? ?].
  destruct normalize; repeat appends_step.
Qed.

Lemma appends_accumulate_masks sh paths : forall mask,
  appends (accumulate_masks w sh paths mask).
Proof.
  induction paths as [|p rest IH]; intro mask; simpl; repeat appends_step. apply IH.
Qed.

Lemma appends_patient_array root_path patient : appends (patient_array w root_path patient).
Proof.
  unfold patient_array. do 5 (apply appends_bind; [apply appends_lift | intros]).
  apply appends_bind; [apply appends_get_reg_numpy_B2A|]. intros [? ?].
  apply appends_bind.
  { unfold get_tiff_masks_as_numpy.
    apply appends_bind; [apply appends_accumulate_masks | intros; apply appends_ret]. }
  intros. repeat appends_step.
Qed.

Lemma generate_data_from_cons root_path patient rest data log :
  generate_data_from w root_path (patient :: rest) data log =
  match patient_array w root_path patient log with
  | Ok (new, log1) =>
      match (match data with
             | None => Ok new
             | Some d => concatenate0 d new
             end) with
      | Ok d' => generate_data_from w root_path rest (Some d') log1
      | Raise e => Raise e
      end
  | Raise e => Raise e
  end.
Proof.
  simpl. unfold bind.
  destruct (patient_array w root_path patient log) as [[new log1]|]; [|reflexivity].
  destruct data as [d|]; simpl; [|reflexivity].
  unfold lift. destruct (concatenate0 d new); reflexivity.
Qed.

Lemma concatenate0_inv (a b c : arr4 R) : concatenate0 a b = Ok c -> c = a ++ b.
Proof. unfold concatenate0. destruct (shape_eqb _ _); [now intros [= <-] | discriminate]. Qed.

(** The batch is the arrays of the patients one after the other, with the
    batch so far in front. *)
Lemma generate_data_from_concat root_path table : forall data log out log',
  generate_data_from w root_path table data log = Ok (out, log') ->
  exists arrays,
    Forall2 (fun patient arr => value (patient_array w root_path patient []) = Some arr)
      table arrays /\
    match data, out with
    | Some d, Some d' => d' = d ++ concat arrays
    | None, Some d' => d' = concat arrays /\ table <> []
    | None, None => table = []
    | Some _, None => False
    end.
Proof.
  induction table as [|patient rest IH]; intros data log out log'.
  - simpl. unfold ret. intros [= <- _]. exists []. split; [constructor|].
    destruct data; simpl; [now rewrite app_nil_r | reflexivity].
  - rewrite generate_data_from_cons.
    destruct (patient_array w root_path patient log) as [[new log1]|] eqn:Hp;
      [|discriminate].
    assert (Hv : value (patient_array w root_path patient []) = Some new).
    { rewrite (appends_value _ [] log (appends_patient_array root_path patient)).
      now rewrite Hp. }
    destruct data as [d|].
    + destruct (concatenate0 d new) as [d'|] eqn:Hc; [|discriminate].
      apply concatenate0_inv in Hc. subst d'. intro H.
      destruct (IH _ _ _ _ H) as (arrays & HF & Hout).
      exists (new :: arrays). split; [now constructor|].
      destruct out as [o|]; [|exact Hout]. simpl. now rewrite Hout, app_assoc.
    + intro H. destruct (IH _ _ _ _ H) as (arrays & HF & Hout).
      exists (new :: arrays). split; [now constructor|].
      destruct out as [o|]; [|destruct Hout]. split; [exact Hout | discriminate].
Qed.

End Appends.

(** X12: when [generate_data] returns, the batch is the per-patient arrays
    put one after the other along the leading axis, in the order of the
    patient table; it is [None] exactly for the empty table. *)
Theorem generate_data_table_order w root_path patient_table log out log' :
  generate_data w root_path patient_table log = Ok (out, log') ->
  exists arrays,
    Forall2 (fun patient arr => value (patient_array w root_path patient []) = Some arr)
      patient_table arrays /\
    match out with
    | Some data => data = concat arrays /\ patient_table <> []
    | None => patient_table = []
    end.
Proof.
  intro H. unfold generate_data in H.
  apply (generate_data_from_concat w root_path patient_table None log out log' H).
Qed.


Lemma generate_data_from_app w root_path t1 : forall t2 data log,
  generate_data_from w root_path (t1 ++ t2) data log =
  bind (generate_data_from w root_path t1 data)
       (fun d => generate_data_from w root_path t2 d) log.
Proof.
  induction t1 as [|p t1 IH]; intros t2 data log.
  - reflexivity.
  - simpl app. rewrite !generate_data_from_cons. unfold bind at 1.
    rewrite generate_data_from_cons.
    destruct (patient_array w root_path p log) as [[new log1]|]; [|reflexivity].
    destruct (match data with
              | Some d => concatenate0 d new
              | None => Ok new
              end) as [d'|]; [|reflexivity].
    rewrite IH. reflexivity.
Qed.

(** X13: a patient that fails aborts the run: if the records before it
    have been processed and its own processing raises, [generate_data]
    raises the same exception and returns no part of the batch, whatever
    records follow. *)
Theorem generate_data_aborts w root_path before patient after log data log1 e :
  generate_data w root_path before log = Ok (data, log1) ->
  patient_array w root_path patient log1 = Raise e ->
  generate_data w root_path (before ++ patient :: after) log = Raise e.
Proof.
  unfold generate_data. intros Hb Hp.
  rewrite generate_data_from_app. unfold bind. rewrite Hb.
  rewrite generate_data_from_cons. now rewrite Hp.
Qed.

Lemma generate_data_aborts_witness :
  generate_data (sample_services measured_header) "root/"
    ([] ++ ["ct"; "lost"; "L"; "N"; "R"]%string :: [["ct"; "pet"; "L"; "N"; "R"]%string]) []
  = Raise OSError.
Proof.
  apply (generate_data_aborts (sample_services measured_header) "root/" []
           ["ct"; "lost"; "L"; "N"; "R"]%string _ [] None []); reflexivity.
Defined.

(** X14: a record of the patient table with fewer than five entries raises
    [IndexError], whatever the services hold. *)
Theorem patient_array_short_record w root_path patient log :
  (length patient < 5)%nat ->
  patient_array w root_path patient log = Raise IndexError.
Proof.
  intro H. unfold patient_array, bind, lift.
  destruct patient as [|p0 [|p1 [|p2 [|p3 [|p4 rest]]]]]; simpl in *;
    try reflexivity; lia.
Qed.

Lemma patient_array_short_record_witness :
  patient_array (sample_services measured_header) "root/" ["ct"; "pet"]%string []
  = Raise IndexError.
Proof.
  apply (patient_array_short_record (sample_services measured_header) "root/"
           ["ct"; "pet"]%string []).
  simpl. lia.
Defined.

(** ** Shape and contents of the batch *)

Lemma shape4_inv {A} (d : arr4 A) n c y x :
  shape4 d = [n; c; y; x] -> length d = n /\ shape3 (hd [] d) = (c, y, x).
Proof.
  unfold shape4. destruct (shape3 (hd [] d)) as [[c' y'] x'].
  intros [= <- <- <- <-]. now split.
Qed.

Lemma shape4_app {A} (d d' : arr4 A) n n' c y x :
  shape4 d = [n; c; y; x] -> shape4 d' = [n'; c; y; x] -> (0 < n)%nat ->
  shape4 (d ++ d') = [(n + n')%nat; c; y; x].
Proof.
  intros Hd Hd' Hn.
  apply shape4_inv in Hd as [Hl Hs]. apply shape4_inv in Hd' as [Hl' _].
  unfold shape4. destruct d as [|s d]; [simpl in Hl; lia|].
  change (hd [] ((s :: d) ++ d')) with s. change (hd [] (s :: d)) with s in Hs.
  now rewrite Hs, length_app, Hl, Hl'.
Qed.

Section Batch.

Variable w : services.
Variable root_path : string.
Variables y x : nat.

Lemma patient_ok_run patient z log :
  patient_ok w root_path y x patient z ->
  exists data log',
    patient_array w root_path patient log = Ok (data, log') /\
    shape4 data = [z; 3%nat; y; x] /\ (0 < z)%nat.
Proof.
  intros (p0 & p1 & p2 & p3 & p4 & fx & -> & Hv).
  destruct (patient_array_run w root_path p0 p1 p2 p3 p4 z y x fx log Hv)
    as (A & B & mask & _ & _ & RA & RB & Rm & Hrun).
  destruct Hv as (_ & _ & _ & _ & _ & _ & _ & _ & _ & _ & _ & _ & _ & _ & Pz & Py & _).
  eexists. eexists. split; [exact Hrun|]. split; [|exact Pz].
  apply moveaxis01_shape; try assumption. now apply rect3_vmap.
Qed.

Lemma generate_data_from_shape table zs :
  Forall2 (patient_ok w root_path y x) table zs ->
  forall d n log,
    shape4 d = [n; 3%nat; y; x] -> (0 < n)%nat ->
    exists d' log',
      generate_data_from w root_path table (Some d) log = Ok (Some d', log') /\
      shape4 d' = [(n + list_sum zs)%nat; 3%nat; y; x].
Proof.
  induction 1 as [|patient z table zs Hp _ IH]; intros d n log Hd Hn.
  - exists d, log. split; [reflexivity|]. simpl. now rewrite Nat.add_0_r.
  - destruct (patient_ok_run patient z log Hp) as (new & log1 & Hrun & Hs & Hz).
    rewrite generate_data_from_cons, Hrun.
    assert (Hc : concatenate0 d new = Ok (d ++ new)).
    { unfold concatenate0. apply shape4_inv in Hd as [_ ->].
      apply shape4_inv in Hs as [_ ->]. now rewrite shape_eqb_refl. }
    rewrite Hc.
    destruct (IH (d ++ new) (n + z)%nat log1) as (d' & log' & Hg & Hs').
    + now apply shape4_app.
    + lia.
    + exists d', log'. split; [exact Hg|]. simpl. now rewrite Nat.add_assoc.
Qed.

End Batch.

(** X15: for a table with at least one record, all on valid fixtures with
    slices of [y] by [x], [generate_data] returns a batch of shape
    [[z1 + ... + zn; 3; y; x]], where [zi] is the number of slices of
    patient [i]. *)
Theorem generate_data_batch_shape w root_path y x patient_table zs log :
  Forall2 (patient_ok w root_path y x) patient_table zs ->
  patient_table <> [] ->
  exists data log',
    generate_data w root_path patient_table log = Ok (Some data, log') /\
    shape4 data = [list_sum zs; 3%nat; y; x].
Proof.
  intros HF Hne. unfold generate_data.
  destruct HF as [|patient z table zs Hp HF]; [contradiction|].
  destruct (patient_ok_run w root_path y x patient z log Hp)
    as (new & log1 & Hrun & Hs & Hz).
  rewrite generate_data_from_cons, Hrun.
  destruct (generate_data_from_shape w root_path y x table zs HF new z log1 Hs Hz)
    as (d' & log' & Hg & Hs').
  exists d', log'. split; [exact Hg | exact Hs'].
Qed.

Lemma sample_patient_ok :
  patient_ok (sample_services measured_header) "root/" 4 4
    ["ct"; "pet"; "L"; "N"; "R"]%string 10.
Proof.
  exists "ct"%string, "pet"%string, "L"%string, "N"%string, "R"%string,
    (sample_fixture measured_header).
  split; [reflexivity | apply sample_valid].
Qed.

Lemma generate_data_batch_shape_witness :
  exists data log',
    generate_data (sample_services measured_header) "root/"
      [["ct"; "pet"; "L"; "N"; "R"]%string; ["ct"; "pet"; "L"; "N"; "R"]%string] []
    = Ok (Some data, log') /\
    shape4 data = [20; 3; 4; 4]%nat.
Proof.
  apply (generate_data_batch_shape (sample_services measured_header) "root/" 4 4
           [["ct"; "pet"; "L"; "N"; "R"]%string; ["ct"; "pet"; "L"; "N"; "R"]%string]
           [10; 10]%nat []).
  - repeat (apply Forall2_cons; [apply sample_patient_ok|]). apply Forall2_nil.
  - discriminate.
Defined.

(** Slice [k] of the stack with its two leading axes exchanged holds slice
    [k] of each of the three volumes, in their order. *)
Lemma stack_cols_nth {A} (a b c : list A) n k xa xb xc :
  nth_error a k = Some xa -> nth_error b k = Some xb -> nth_error c k = Some xc ->
  (k < n)%nat ->
  nth_error (map2 cons a (map2 cons b (map2 cons c (repeat [] n)))) k
  = Some [xa; xb; xc].
Proof.
  revert b c n k. induction a as [|a0 a IH]; intros b c n k Ha Hb Hc Hk.
  - destruct k; discriminate.
  - destruct b as [|b0 b]; [destruct k; discriminate|].
    destruct c as [|c0 c]; [destruct k; discriminate|].
    destruct n as [|n]; [lia|].
    destruct k as [|k]; simpl in *.
    + now injection Ha as <-; injection Hb as <-; injection Hc as <-.
    + apply IH; try assumption. lia.
Qed.

(** X16: slice [k] of the array of a patient is the list of slice [k] of
    the PET volume, slice [k] of the CT volume and slice [k] of the mask:
    channel 0 is PET, channel 1 is CT, channel 2 is the mask. *)
Theorem moveaxis01_channels {A} (pet ct mask : vol A) k p c m :
  nth_error pet k = Some p -> nth_error ct k = Some c -> nth_error mask k = Some m ->
  nth_error (moveaxis01 [pet; ct; mask]) k = Some [p; c; m].
Proof.
  intros Hp Hc Hm. unfold moveaxis01. simpl.
  apply stack_cols_nth; try assumption.
  apply nth_error_Some. now rewrite Hp.
Qed.

Lemma moveaxis01_channels_witness :
  nth_error (moveaxis01 [[[[1; 2]]; [[3; 4]]]; [[[5; 6]]; [[7; 8]]];
                         [[[0; 0]]; [[1; 1]]]]%nat) 1
  = Some [[[3; 4]]; [[7; 8]]; [[1; 1]]]%nat.
Proof.
  apply (moveaxis01_channels [[[1; 2]]; [[3; 4]]]%nat [[[5; 6]]; [[7; 8]]]%nat
           [[[0; 0]]; [[1; 1]]]%nat 1); reflexivity.
Defined.

Lemma stack_cols_Forall {A} (Pa Pb Pc : A -> Prop) (a b c : list A) n :
  Forall Pa a -> Forall Pb b -> Forall Pc c ->
  Forall (fun s => exists p q m, s = [p; q; m] /\ Pa p /\ Pb q /\ Pc m)
    (map2 cons a (map2 cons b (map2 cons c (repeat [] n)))).
Proof.
  intro Ha. revert b c n. induction Ha as [|a0 a Pa0 _ IH]; intros b c n Hb Hc; simpl.
  - constructor.
  - destruct Hb as [|b0 b Pb0 Hb]; simpl; [constructor|].
    destruct Hc as [|c0 c Pc0 Hc]; simpl; [constructor|].
    destruct n as [|n]; simpl; constructor.
    + exists a0, b0, c0. now repeat split.
    + now apply IH.
Qed.

(** The run of one patient with the mask spelled out. *)
Lemma patient_array_run_mask w root_path p0 p1 p2 p3 p4 z y x fx log :
  valid_fixture w root_path p0 p1 p2 p3 p4 (z, y, x) fx ->
  exists A B log',
    norm (pixels (loaded_pet fx)) = Ok A /\
    norm (pixels (sitk_Resample w (loaded_ct fx) (loaded_pet fx))) = Ok B /\
    patient_array w root_path [p0; p1; p2; p3; p4] log =
      Ok (moveaxis01
            [A; B;
             vmap IZR (threshold 0.5
                         (fold_left (fun a m => vmap2 Rplus a (flip0 m))
                            [mask_L fx; mask_N fx; mask_R fx] (zeros (z, y, x))))],
          log').
Proof.
  intros (HrA & HlA & HdA & HrB & HlB & HdB & HmL & HmN & HmR &
          Rpet & Rres & RL & RN & RR & Pz & Py & Px).
  assert (Rpet' : rect3 (z, y, x) (pixels (loaded_pet fx))).
  { unfold loaded_pet, scale_abs. simpl. now apply rect3_vmap. }
  destruct (norm_rect z y x _ Rpet' Pz Py Px) as (A & HA & RA).
  destruct (norm_rect z y x _ Rres Pz Py Px) as (B & HB & RB).
  set (ms := [mask_L fx; mask_N fx; mask_R fx]).
  set (acc := fold_left (fun a m => vmap2 Rplus a (flip0 m)) ms (zeros (z, y, x))).
  assert (Racc : rect3 (z, y, x) acc).
  { apply fold_masks_rect; [|apply rect3_zeros].
    unfold ms. repeat (apply Forall_cons; [assumption|]). apply Forall_nil. }
  assert (Hms : Forall2 (fun path m => io_imread w path = Ok m /\ rect3 (z, y, x) m)
                  [(root_path ++ p2 ++ ".tif")%string; (root_path ++ p3 ++ ".tif")%string;
                   (root_path ++ p4 ++ ".tif")%string] ms).
  { unfold ms. repeat (apply Forall2_cons; [split; assumption|]). apply Forall2_nil. }
  exists A, B. eexists. split; [exact HA|]. split; [exact HB|].
  unfold patient_array, get_tiff_masks_as_numpy, bind, lift, ret.
  cbn [item nth_error].
  rewrite (get_reg_numpy_B2A_run _ _ _ log _ _ _ _ _ _ _ _ A B
             HrA HlA HdA HrB HlB HdB HA HB).
  rewrite (rect3_shape z y x A RA Pz Py).
  rewrite (accumulate_masks_run _ (z, y, x) _ ms Hms (zeros (z, y, x)) _).
  fold acc.
  rewrite (np_array3_rect z y x A B (vmap IZR (threshold 0.5 acc)))
    by (try assumption; now repeat apply rect3_vmap).
  reflexivity.
Qed.

Lemma threshold_real_binary eps (m : vol R) :
  all_voxels (fun v => v = 0 \/ v = 1) (vmap IZR (threshold eps m)).
Proof.
  unfold threshold. rewrite vmap_vmap. unfold vmap, all_voxels.
  apply Forall_map, Forall_forall. intros p _.
  apply Forall_map, Forall_forall. intros r _.
  apply Forall_map, Forall_forall. intros v _.
  destruct (Rlt_dec eps v); auto.
Qed.

(** X17: on a valid fixture whose PET image and resampled CT image are not
    constant, every slice of the patient's array has three channels, the
    PET and CT channels with all values between 0 and 1 and the mask
    channel with all values 0 or 1. *)
Theorem patient_array_ranges w root_path p0 p1 p2 p3 p4 z y x fx log :
  valid_fixture w root_path p0 p1 p2 p3 p4 (z, y, x) fx ->
  non_constant (pixels (loaded_pet fx)) ->
  non_constant (pixels (sitk_Resample w (loaded_ct fx) (loaded_pet fx))) ->
  exists data log',
    patient_array w root_path [p0; p1; p2; p3; p4] log = Ok (data, log') /\
    Forall (fun slice => exists p c m,
              slice = [p; c; m] /\
              Forall (Forall (fun v => 0 <= v <= 1)) p /\
              Forall (Forall (fun v => 0 <= v <= 1)) c /\
              Forall (Forall (fun v => v = 0 \/ v = 1)) m) data.
Proof.
  intros Hv HncA HncB.
  destruct (patient_array_run_mask w root_path p0 p1 p2 p3 p4 z y x fx log Hv)
    as (A & B & log' & HA & HB & Hrun).
  eexists. eexists. split; [exact Hrun|].
  assert (RA' : rect3 (z, y, x) (pixels (loaded_pet fx))).
  { destruct Hv as (_ & _ & _ & _ & _ & _ & _ & _ & _ & Rp & _).
    unfold loaded_pet, scale_abs. simpl. now apply rect3_vmap. }
  destruct (norm_in_unit_interval _ _ HncA RA') as (A' & HA' & HrA & _).
  assert (Rres : rect3 (z, y, x) (pixels (sitk_Resample w (loaded_ct fx) (loaded_pet fx)))).
  { now destruct Hv as (_ & _ & _ & _ & _ & _ & _ & _ & _ & _ & Rr & _). }
  destruct (norm_in_unit_interval _ _ HncB Rres) as (B' & HB' & HrB & _).
  rewrite HA in HA'. injection HA' as <-. rewrite HB in HB'. injection HB' as <-.
  unfold moveaxis01. simpl fold_right.
  apply stack_cols_Forall; [exact HrA | exact HrB | apply threshold_real_binary].
Qed.

Lemma measured_factor_pos : 0 < fst (scale_factor measured_header "SUV").
Proof.
  unfold scale_factor. simpl. rewrite calc_factor_SUV.
  apply Rdiv_lt_0_compat.
  - apply weight_g_pos. intros wt [= <-]. lra.
  - apply decay_block_dose_pos. intros d [= <-]. lra.
Qed.

Lemma sample_pet_non_constant :
  non_constant (pixels (loaded_pet (sample_fixture measured_header))).
Proof.
  pose proof measured_factor_pos as Hf.
  set (f := fst (scale_factor measured_header "SUV")) in *.
  exists (Rabs ((INR 0 + 1) * f)), (Rabs ((INR 1 + 1) * f)).
  unfold loaded_pet, scale_abs. cbn [pixels sample_fixture raw_pet ds_pet]. fold f.
  rewrite ravel_vmap. repeat split.
  - apply (in_map (fun v => Rabs (v * f)) _ (INR 0 + 1)). simpl. now left.
  - apply (in_map (fun v => Rabs (v * f)) _ (INR 1 + 1)). simpl. do 16 right. now left.
  - simpl INR. rewrite !Rabs_pos_eq by nra. lra.
Qed.

Lemma sample_ct_non_constant :
  non_constant
    (pixels (sitk_Resample (sample_services measured_header)
               (loaded_ct (sample_fixture measured_header))
               (loaded_pet (sample_fixture measured_header)))).
Proof.
  pose proof measured_factor_pos as Hf.
  set (f := fst (scale_factor measured_header "SUV")) in *.
  exists (Rabs ((INR 0 + -3) * f)), (Rabs ((INR 1 + -3) * f)).
  unfold loaded_pet, loaded_ct, scale_abs.
  cbn [pixels sample_fixture sample_services sitk_Resample raw_pet raw_ct ds_pet ds_ct].
  fold f. repeat split.
  - simpl. now left.
  - simpl. do 16 right. now left.
  - simpl INR.
    replace ((0 + -3) * f) with (- (3 * f)) by ring.
    replace ((1 + -3) * f) with (- (2 * f)) by ring.
    rewrite !Rabs_Ropp, !Rabs_pos_eq by nra. lra.
Qed.

Lemma patient_array_ranges_witness :
  exists data log',
    patient_array (sample_services measured_header) "root/"
      ["ct"; "pet"; "L"; "N"; "R"]%string [] = Ok (data, log') /\
    Forall (fun slice => exists p c m,
              slice = [p; c; m] /\
              Forall (Forall (fun v => 0 <= v <= 1)) p /\
              Forall (Forall (fun v => 0 <= v <= 1)) c /\
              Forall (Forall (fun v => v = 0 \/ v = 1)) m) data.
Proof.
  apply (patient_array_ranges (sample_services measured_header) "root/"
           "ct" "pet" "L" "N" "R" 10 4 4 (sample_fixture measured_header) []).
  - apply sample_valid.
  - apply sample_pet_non_constant.
  - apply sample_ct_non_constant.
Defined.

(** ** The loader and the class [PET] *)

Lemma scale_abs_nonneg (raw : image) (f : R) :
  all_voxels (fun v => 0 <= v) (pixels (scale_abs raw f)).
Proof.
  unfold scale_abs, all_voxels, vmap. simpl.
  apply Forall_map, Forall_forall. intros p _.
  apply Forall_map, Forall_forall. intros r _.
  apply Forall_map, Forall_forall. intros v _. apply Rabs_pos.
Qed.

(** X18: when the loader returns, the header is the one of the first name
    that [os.listdir] gave, the image is the series with every voxel
    replaced by [|v * factor|] on the same grid, so no voxel is negative,
    and exactly three calls were made. *)
Theorem from_dicom_pet_result w path series_id type log img ds f c md log' :
  from_dicom_pet w path series_id type log = Ok ((img, ds, f, c, md), log') ->
  let sid := match series_id with
             | Some s => s
             | None => EmptyString
             end in
  exists raw name names,
    read_series w path sid = Ok raw /\
    os_listdir w path = Ok (name :: names) /\
    dcmread w (posix_join w path name) = Ok ds /\
    img = scale_abs raw f /\ grid img = grid raw /\
    all_voxels (fun v => 0 <= v) (pixels img) /\
    md = [] /\
    log' = log ++ [EvReadSeries path sid; EvListdir path;
                   EvDcmread (posix_join w path name)].
Proof.
  intros H sid. unfold from_dicom_pet, read_image, bind, emit, lift, ret in H.
  fold sid in H.
  destruct (read_series w path sid) as [raw|] eqn:Hr; [|discriminate].
  destruct (os_listdir w path) as [[|name names]|] eqn:Hl; try discriminate.
  destruct (dcmread w (posix_join w path name)) as [ds'|] eqn:Hd; [|discriminate].
  destruct (scale_factor ds' type) as [f' c'].
  injection H as <- <- <- <- <- <-.
  exists raw, name, names. repeat split; try assumption; try reflexivity.
  - apply scale_abs_nonneg.
  - now rewrite <- !app_assoc.
Qed.

Lemma from_dicom_pet_result_witness :
  exists raw name names,
    read_series (sample_services vendor_header) "root/pet" EmptyString = Ok raw /\
    os_listdir (sample_services vendor_header) "root/pet" = Ok (name :: names) /\
    dcmread (sample_services vendor_header)
      (posix_join (sample_services vendor_header) "root/pet" name) = Ok vendor_header /\
    scale_abs (mkImage unit_grid (slab 10 4 4 1)) 2 = scale_abs raw 2 /\
    grid (scale_abs (mkImage unit_grid (slab 10 4 4 1)) 2) = grid raw /\
    all_voxels (fun v => 0 <= v) (pixels (scale_abs (mkImage unit_grid (slab 10 4 4 1)) 2)) /\
    @nil (string * R) = [] /\
    [EvReadSeries "root/pet" EmptyString; EvListdir "root/pet";
     EvDcmread "root/pet/0001.dcm"] =
    [] ++ [EvReadSeries "root/pet" EmptyString; EvListdir "root/pet";
           EvDcmread (posix_join (sample_services vendor_header) "root/pet" name)].
Proof.
  apply (from_dicom_pet_result (sample_services vendor_header) "root/pet" None "SUV" []
           (scale_abs (mkImage unit_grid (slab 10 4 4 1)) 2) vendor_header 2 false []).
  reflexivity.
Defined.

(** X19: [resample_pet] always resamples the image the object was made
    with: after two calls the second result is that image on the second
    grid, the cached copy is the second result, and image, header, factor
    and flag of the object are as before. *)
Theorem resample_pet_twice w self ct1 ct2 log self1 r1 log1 self2 r2 log2 :
  resample_pet w self ct1 log = Ok ((self1, r1), log1) ->
  resample_pet w self1 ct2 log1 = Ok ((self2, r2), log2) ->
  r2 = sitk_Resample w (img_pet self) ct2 /\
  resampled_pt self2 = Some r2 /\
  img_pet self2 = img_pet self /\ df self2 = df self /\
  factor self2 = factor self /\ calc self2 = calc self /\
  log2 = log ++ [EvResample (img_pet self) ct1; EvResample (img_pet self) ct2].
Proof.
  unfold resample_pet, bind, emit, ret. intros [= <- <- <-] [= <- <- <-]. simpl.
  repeat split. now rewrite <- app_assoc.
Qed.

Lemma resample_pet_twice_witness :
  sitk_Resample (sample_services measured_header) (mkImage unit_grid ramp)
    (mkImage unit_grid (slab 1 1 1 0))
  = sitk_Resample (sample_services measured_header)
      (img_pet (sample_pet measured_header)) (mkImage unit_grid (slab 1 1 1 0)).
Proof.
  apply (resample_pet_twice (sample_services measured_header)
           (sample_pet measured_header) (mkImage unit_grid ramp)
           (mkImage unit_grid (slab 1 1 1 0)) []
           _ _ _ _ _ _ eq_refl eq_refl).
Defined.

(** ** [get_metadata] *)

Lemma has_key_set {V} (d : list (string * V)) k v k' :
  has_key (dict_set d k v) k' = (String.eqb k k' || has_key d k')%bool.
Proof.
  unfold has_key. induction d as [|[k0 v0] d IH]; simpl.
  - destruct (String.eqb k k'); reflexivity.
  - destruct (String.eqb k0 k) eqn:E0; simpl.
    + apply String.eqb_eq in E0. subst k0.
      destruct (String.eqb k k'); reflexivity.
    + destruct (String.eqb k0 k') eqn:E1; simpl.
      * now rewrite orb_true_r.
      * exact IH.
Qed.

Lemma dict_get_set_same {V} (d : list (string * V)) k v :
  dict_get (dict_set d k v) k = Ok v.
Proof.
  induction d as [|[k0 v0] d IH]; simpl.
  - now rewrite String.eqb_refl.
  - destruct (String.eqb k0 k) eqn:E0; simpl; rewrite E0; [reflexivity | exact IH].
Qed.

Lemma dict_get_set_other {V} (d : list (string * V)) k v k' :
  String.eqb k k' = false -> dict_get (dict_set d k v) k' = dict_get d k'.
Proof.
  intro Hk. induction d as [|[k0 v0] d IH]; simpl.
  - now rewrite Hk.
  - destruct (String.eqb k0 k) eqn:E0; simpl.
    + apply String.eqb_eq in E0. subst k0. now rewrite Hk.
    + destruct (String.eqb k0 k'); [reflexivity | exact IH].
Qed.

(** X20: the dictionary of [get_metadata] always holds the factor and the
    flag of the object, under ["factor"] and ["Values_Assumed"], and holds
    ["weight"] exactly when the patient weight can be read. *)
Theorem get_metadata_factor_flag (self : PET) :
  dict_get (get_metadata self) "factor" = Ok (MetaFloat (factor self)) /\
  dict_get (get_metadata self) "Values_Assumed" = Ok (MetaBool (calc self)) /\
  has_key (get_metadata self) "weight" = readable (PatientWeight (df self)).
Proof.
  unfold get_metadata. split; [|split].
  - rewrite dict_get_set_other by reflexivity. apply dict_get_set_same.
  - apply dict_get_set_same.
  - rewrite !has_key_set. simpl.
    unfold metadata_try.
    destruct (PatientWeight (df self)); simpl;
      destruct (AcquisitionTime (df self)); simpl; try reflexivity;
      destruct (RadiopharmaceuticalInformationSequence (df self)) as [[|it rest]|];
      simpl; try reflexivity;
      destruct (RadiopharmaceuticalStartTime it); simpl; try reflexivity;
      destruct (RadionuclideHalfLife it); simpl; try reflexivity;
      destruct (RadionuclideTotalDose it); simpl; rewrite ?has_key_set; reflexivity.
Qed.

(** X21: the timing entries of the dictionary come in the order of the
    assignments: ["injected_dose"] is there only with ["half_life"], that
    only with ["injection_time"], that only with ["scan_time"]; and all
    four are there exactly when the block of [calc_factor] on the same
    header either succeeds or fails by a half-life of zero. *)
Theorem get_metadata_timing_keys (self : PET) :
  let md := get_metadata self in
  (has_key md "injected_dose" = true -> has_key md "half_life" = true) /\
  (has_key md "half_life" = true -> has_key md "injection_time" = true) /\
  (has_key md "injection_time" = true -> has_key md "scan_time" = true) /\
  (has_key md "injected_dose" = true <->
   (exists p, decay_try (df self) = Ok p) \/
   decay_try (df self) = Raise ZeroDivisionError).
Proof.
  unfold get_metadata, metadata_try, decay_try. 
  destruct (PatientWeight (df self)); simpl;
    (destruct (AcquisitionTime (df self)); simpl;
     [| |destruct (RadiopharmaceuticalInformationSequence (df self)) as [[|it rest]|];
         simpl;
         [| destruct (RadiopharmaceuticalStartTime it); simpl;
            [| | destruct (RadionuclideHalfLife it) as [| |hl]; simpl;
                 [| | destruct (RadionuclideTotalDose it); simpl;
                      [| | unfold py_div; destruct (Req_dec_T hl 0); simpl]]]
          |]]);
    rewrite ?has_key_set; simpl;
    repeat split; try discriminate; try reflexivity; try tauto;
    try (intros [[p Hp] | Hp]; discriminate);
    try (intros _; left; eexists; reflexivity);
    try (intros _; right; reflexivity).
Qed.

Lemma get_metadata_timing_keys_witness :
  has_key (get_metadata (sample_pet measured_header)) "injected_dose" = true <->
  (exists p, decay_try measured_header = Ok p) \/
  decay_try measured_header = Raise ZeroDivisionError.
Proof.
  apply (get_metadata_timing_keys (sample_pet measured_header)).
Defined.

(** ** A table of two different patients *)

Lemma two_patient_first :
  patient_ok two_patient_services "root/" 4 4 ["ct"; "pet"; "L"; "N"; "R"]%string 10.
Proof.
  exists "ct"%string, "pet"%string, "L"%string, "N"%string, "R"%string,
    (sample_fixture measured_header).
  split; [reflexivity|].
  unfold valid_fixture. repeat split; try reflexivity; try lia;
    try apply rect3_slab; try apply rect3_mask_slab.
  all: apply (rect3_crop 10 4 4 12 6 6); try lia.
  all: apply (rect3_vmap _ _ (slab _ _ _ _)), rect3_slab.
Qed.

Lemma two_patient_second :
  patient_ok two_patient_services "root/" 4 4 ["ct"; "pet2"; "S"; "S"; "S"]%string 2.
Proof.
  exists "ct"%string, "pet2"%string, "S"%string, "S"%string, "S"%string, second_fixture.
  split; [reflexivity|].
  unfold valid_fixture. repeat split; try reflexivity; try lia;
    try apply rect3_slab; try apply rect3_mask_slab.
  all: apply (rect3_crop 2 4 4 12 6 6); try lia.
  all: apply (rect3_vmap _ _ (slab _ _ _ _)), rect3_slab.
Qed.

Lemma generate_data_table_order_witness :
  exists data arr1 arr2,
    value (generate_data two_patient_services "root/"
             [["ct"; "pet"; "L"; "N"; "R"]%string; ["ct"; "pet2"; "S"; "S"; "S"]%string] [])
    = Some (Some data) /\
    value (patient_array two_patient_services "root/"
             ["ct"; "pet"; "L"; "N"; "R"]%string []) = Some arr1 /\
    value (patient_array two_patient_services "root/"
             ["ct"; "pet2"; "S"; "S"; "S"]%string []) = Some arr2 /\
    data = arr1 ++ arr2 /\
    length arr1 = 10%nat /\ length arr2 = 2%nat.
Proof.
  destruct (patient_ok_run two_patient_services "root/" 4 4 _ 10 [] two_patient_first)
    as (d1 & l1 & Hr1 & Hs1 & Hz1).
  destruct (patient_ok_run two_patient_services "root/" 4 4 _ 2 [] two_patient_second)
    as (d2 & l2 & Hr2 & Hs2 & _).
  destruct (generate_data_from_shape two_patient_services "root/" 4 4
              [["ct"; "pet2"; "S"; "S"; "S"]%string] [2%nat]
              (Forall2_cons _ _ two_patient_second (Forall2_nil _)) d1 10 l1 Hs1 Hz1)
    as (d & l & Hg & _).
  assert (Hrun : generate_data two_patient_services "root/"
                   [["ct"; "pet"; "L"; "N"; "R"]%string;
                    ["ct"; "pet2"; "S"; "S"; "S"]%string] [] = Ok (Some d, l)).
  { unfold generate_data. rewrite generate_data_from_cons, Hr1. exact Hg. }
  destruct (generate_data_table_order _ _ _ _ _ _ Hrun) as (arrays & HF & Hd & _).
  inversion HF as [|r1 a1 t1 as1 Ha1 HF1]; subst.
  inversion HF1 as [|r2 a2 t2 as2 Ha2 HF2]; subst.
  inversion HF2; subst.
  rewrite Hr1 in Ha1. injection Ha1 as <-. rewrite Hr2 in Ha2. injection Ha2 as <-.
  exists (concat [d1; d2]), d1, d2. rewrite Hrun, Hr1, Hr2.
  repeat split.
  - simpl. now rewrite app_nil_r.
  - now apply shape4_inv in Hs1.
  - now apply shape4_inv in Hs2.
Defined.
